(** * Word_Cloud_app: the document-to-word-frequency pipeline of [word.py]

    A shallow embedding of [src/word.py].  Python strings are sequences of
    Unicode code points; a code point is an [N].  The built-in operations of
    Python and of the libraries the script calls ([str.split], [str.join],
    [bytes.decode], pandas' [groupby]/[size]/[sort_values]/[to_csv]) are
    written out from their documented behaviour; what is data of a library
    (the [STOPWORDS] table of [wordcloud], Unicode lowercasing) is a section
    variable, so that every general theorem holds whatever that data is. *)

From Stdlib Require Import String Ascii.
From Stdlib Require DecimalNat DecimalFacts.
From stdpp Require Import gmap list sorting.

Local Open Scope N_scope.

(** ** Text *)

Abbreviation codepoint := N (only parsing).
Abbreviation text := (list N) (only parsing).

(** A string literal of the development, read as the text of its characters
    (code points below 256). *)
Fixpoint txt (s : string) : text :=
  match s with
  | EmptyString => []
  | String c r => N_of_ascii c :: txt r
  end.

(** Whitespace as [str.split()] and [str.isspace()] see it. *)
Definition is_space (c : codepoint) : bool :=
  ((9 <=? c) && (c <=? 13)) || ((28 <=? c) && (c <=? 32))
  || (c =? 133) || (c =? 160) || (c =? 5760)
  || ((8192 <=? c) && (c <=? 8202))
  || (c =? 8232) || (c =? 8233) || (c =? 8239) || (c =? 8287) || (c =? 12288).

Definition SPACE : codepoint := 32.

(** [flush cur]: the token collected so far, if any. *)
Definition flush (cur : text) : list text :=
  match cur with [] => [] | _ => [cur] end.

(** [split_from cur s]: the tokens of [s], where [cur] is the token being
    read when [s] starts. *)
Fixpoint split_from (cur : text) (s : text) : list text :=
  match s with
  | [] => flush cur
  | c :: r =>
      if is_space c then flush cur ++ split_from [] r
      else split_from (cur ++ [c]) r
  end.

(** [text.split()] *)
Definition split (s : text) : list text := split_from [] s.

(** [" ".join(words)] *)
Fixpoint join (words : list text) : text :=
  match words with
  | [] => []
  | [w] => w
  | w :: r => w ++ SPACE :: join r
  end.

(** A token: non-empty and free of whitespace. *)
Definition token (w : text) : Prop :=
  w ≠ [] ∧ Forall (fun c => is_space c = false) w.

(** The whitespace-delimited tokens of a text, as the specification words
    them ("split on whitespace runs", "the number of whitespace-delimited
    tokens"), to compare [split] with: the text is whitespace, then a token
    that ends where the text ends or where whitespace follows, then the rest
    delimited in the same way. *)
Inductive whitespace_delimited : text -> list text -> Prop :=
| delimited_end (sp : text) :
    Forall (fun c => is_space c = true) sp ->
    whitespace_delimited sp []
| delimited_token (sp w rest : text) (ws : list text) :
    Forall (fun c => is_space c = true) sp ->
    token w ->
    match rest with [] => True | c :: _ => is_space c = true end ->
    whitespace_delimited rest ws ->
    whitespace_delimited (sp ++ w ++ rest) (w :: ws).

(** ** Stopword filtering *)

Section Filter.

(** [wordcloud.STOPWORDS], a set of strings. *)
Variable STOPWORDS : gset text.

(** [str.lower]. *)
Variable lower : text -> text.

(** [filter_stopwords(text, additional_stopwords)], lines 28-32.  The
    argument is turned into a set by the code; it is a set here. *)
Definition filter_stopwords (t : text) (additional_stopwords : gset text) : text :=
  let words := split t in
  let all_stopwords := STOPWORDS ∪ additional_stopwords in
  let filtered_words :=
    filter (fun word => lower word ∉ all_stopwords) words in
  join filtered_words.

(** Lines 79-85: the set built from the checkbox and the selected words, and
    the text that [filter_stopwords] then returns. *)
Definition selected_stopwords (use_standard_stopwords : bool)
    (additional_stopwords : list text) : gset text :=
  if use_standard_stopwords
  then STOPWORDS ∪ list_to_set additional_stopwords
  else list_to_set additional_stopwords.

Definition filtered_text (use_standard_stopwords : bool)
    (additional_stopwords : list text) (t : text) : text :=
  filter_stopwords t (selected_stopwords use_standard_stopwords additional_stopwords).

(** The filter as the specification words it: the tokens whose lowercased
    form is not in the given set, rejoined with single spaces. *)
Definition spec_StopwordFilter (t : text) (stopwords : gset text) : text :=
  join (filter (fun word => lower word ∉ stopwords) (split t)).

End Filter.

(** ASCII and Latin-1 lowercasing: what [str.lower] does on code points below
    256. *)
Definition lower_char (c : codepoint) : codepoint :=
  if ((65 <=? c) && (c <=? 90))
     || ((192 <=? c) && (c <=? 222) && negb (c =? 215))
  then c + 32 else c.

Definition lower_latin1 (t : text) : text := map lower_char t.

(** The English list that the [wordcloud] package ships as [STOPWORDS]. *)
Definition wordcloud_STOPWORDS : gset text :=
  list_to_set (map txt [
    "a"; "about"; "above"; "after"; "again"; "against"; "all"; "also"; "am";
    "an"; "and"; "any"; "are"; "aren't"; "as"; "at"; "be"; "because";
    "been"; "before"; "being"; "below"; "between"; "both"; "but"; "by";
    "can"; "can't"; "cannot"; "com"; "could"; "couldn't"; "did"; "didn't";
    "do"; "does"; "doesn't"; "doing"; "don't"; "down"; "during"; "each";
    "else"; "ever"; "few"; "for"; "from"; "further"; "get"; "had"; "hadn't";
    "has"; "hasn't"; "have"; "haven't"; "having"; "he"; "he'd"; "he'll";
    "he's"; "hence"; "her"; "here"; "here's"; "hers"; "herself"; "him";
    "himself"; "his"; "how"; "how's"; "however"; "http"; "i"; "i'd"; "i'll";
    "i'm"; "i've"; "if"; "in"; "into"; "is"; "isn't"; "it"; "it's"; "its";
    "itself"; "just"; "k"; "let's"; "like"; "me"; "more"; "most"; "mustn't";
    "my"; "myself"; "no"; "nor"; "not"; "of"; "off"; "on"; "once"; "only";
    "or"; "other"; "otherwise"; "ought"; "our"; "ours"; "ourselves"; "out";
    "over"; "own"; "r"; "same"; "shall"; "shan't"; "she"; "she'd"; "she'll";
    "she's"; "should"; "shouldn't"; "since"; "so"; "some"; "such"; "than";
    "that"; "that's"; "the"; "their"; "theirs"; "them"; "themselves";
    "then"; "there"; "there's"; "therefore"; "these"; "they"; "they'd";
    "they'll"; "they're"; "they've"; "this"; "those"; "through"; "to";
    "too"; "under"; "until"; "up"; "very"; "was"; "wasn't"; "we"; "we'd";
    "we'll"; "we're"; "we've"; "were"; "weren't"; "what"; "what's"; "when";
    "when's"; "where"; "where's"; "which"; "while"; "who"; "who's"; "whom";
    "why"; "why's"; "with"; "won't"; "would"; "wouldn't"; "www"; "you";
    "you'd"; "you'll"; "you're"; "you've"; "your"; "yours"; "yourself";
    "yourselves"
  ]%string).

(** ** The frequency table *)

(** Order of Python strings: lexicographic by code point. *)
Fixpoint text_leb (a b : text) : bool :=
  match a, b with
  | [], _ => true
  | _ :: _, [] => false
  | x :: a', y :: b' =>
      if x <? y then true else if y <? x then false else text_leb a' b'
  end.

Definition text_le (a b : text) : Prop := text_leb a b = true.

#[global] Instance text_le_dec (a b : text) : Decision (text_le a b) :=
  decide (text_leb a b = true).

(** [sorted(words)] *)
Definition sorted (words : list text) : list text := merge_sort text_le words.

(** A row of the data frame with the columns [Word] and [Count]. *)
Record row := Row { Word : text; Count : nat }.

(** Number of occurrences of [k], by equality of strings. *)
Definition count (k : text) (words : list text) : nat :=
  length (filter (fun w => w = k) words).

(** [pd.DataFrame({'Word': words}).groupby('Word').size().reset_index(name='Count')]:
    one row per distinct word, in the order of the words ([groupby] sorts
    its keys), with the size of its group. *)
Definition groupby_size (words : list text) : list row :=
  (fun k => Row k (count k words)) <$> sorted (remove_dups words).

(** Rows in the order [sort_values('Count', ascending=False)] wants. *)
Definition count_desc (r1 r2 : row) : Prop := (Count r2 <= Count r1)%nat.

#[global] Instance count_desc_dec (r1 r2 : row) : Decision (count_desc r1 r2) :=
  decide (Count r2 <= Count r1)%nat.

(** [df.sort_values('Count', ascending=False)].  pandas leaves the order of
    rows of equal count to its sorting routine (the default, quicksort, is not
    stable).  The merge sort used here puts them in an order of its own,
    which need be neither the order they had nor the order pandas gives; no
    theorem below depends on the order of rows of equal count. *)
Definition sort_values_Count_desc (df : list row) : list row :=
  merge_sort count_desc df.

(** Lines 71-72 and 116-117. *)
Definition word_count (words : list text) : list row :=
  sort_values_Count_desc (groupby_size words).

(** The count a table gives for a word; 0 for a word without a row. *)
Definition table_count (tbl : list row) (w : text) : nat :=
  sum_list_with Count (filter (fun r => Word r = w) tbl).

(** ** Bytes and UTF-8 *)

Abbreviation bytes := (list Byte.byte) (only parsing).

(** A continuation byte, [10xxxxxx]. *)
Definition continuation (n : N) : bool := (128 <=? n) && (n <=? 191).

(** [data.decode("utf-8")] with the default, strict error handling: [None]
    stands for [UnicodeDecodeError].  Overlong forms, surrogates and code
    points above U+10FFFF are invalid. *)
Fixpoint utf8_decode (data : bytes) : option text :=
  match data with
  | [] => Some []
  | b0 :: r0 =>
      let n0 := Byte.to_N b0 in
      if n0 <? 128 then cons n0 <$> utf8_decode r0
      else if (194 <=? n0) && (n0 <=? 223) then
        match r0 with
        | b1 :: r1 =>
            let n1 := Byte.to_N b1 in
            if continuation n1
            then cons ((n0 - 192) * 64 + (n1 - 128)) <$> utf8_decode r1
            else None
        | _ => None
        end
      else if (224 <=? n0) && (n0 <=? 239) then
        match r0 with
        | b1 :: b2 :: r2 =>
            let n1 := Byte.to_N b1 in
            let n2 := Byte.to_N b2 in
            if continuation n1 && continuation n2
               && (negb (n0 =? 224) || (160 <=? n1))
               && (negb (n0 =? 237) || (n1 <=? 159))
            then cons ((n0 - 224) * 4096 + (n1 - 128) * 64 + (n2 - 128))
                   <$> utf8_decode r2
            else None
        | _ => None
        end
      else if (240 <=? n0) && (n0 <=? 244) then
        match r0 with
        | b1 :: b2 :: b3 :: r3 =>
            let n1 := Byte.to_N b1 in
            let n2 := Byte.to_N b2 in
            let n3 := Byte.to_N b3 in
            if continuation n1 && continuation n2 && continuation n3
               && (negb (n0 =? 240) || (144 <=? n1))
               && (negb (n0 =? 244) || (n1 <=? 143))
            then cons ((n0 - 240) * 262144 + (n1 - 128) * 4096
                       + (n2 - 128) * 64 + (n3 - 128))
                   <$> utf8_decode r3
            else None
        | _ => None
        end
      else None
  end.

(** The byte of a number below 256. *)
Definition byte_of (n : N) : Byte.byte := default Byte.x00 (Byte.of_N n).

(** The UTF-8 form of one code point; none for a surrogate or a number that
    is no code point. *)
Definition utf8_encode_char (c : codepoint) : option bytes :=
  if c <? 128 then Some [byte_of c]
  else if c <? 2048 then Some [byte_of (192 + c / 64); byte_of (128 + c mod 64)]
  else if (55296 <=? c) && (c <=? 57343) then None
  else if c <? 65536 then
    Some [byte_of (224 + c / 4096); byte_of (128 + (c / 64) mod 64);
          byte_of (128 + c mod 64)]
  else if c <? 1114112 then
    Some [byte_of (240 + c / 262144); byte_of (128 + (c / 4096) mod 64);
          byte_of (128 + (c / 64) mod 64); byte_of (128 + c mod 64)]
  else None.

(** [s.encode()]: [None] stands for [UnicodeEncodeError]. *)
Fixpoint utf8_encode (s : text) : option bytes :=
  match s with
  | [] => Some []
  | c :: r =>
      match utf8_encode_char c, utf8_encode r with
      | Some b, Some bs => Some (b ++ bs)
      | _, _ => None
      end
  end.

(** ** CSV export *)

Definition COMMA : codepoint := 44.
Definition QUOTE : codepoint := 34.
Definition LF : codepoint := 10.
Definition CR : codepoint := 13.

(** The decimal digits of a number, most significant first. *)
Fixpoint digits (d : Decimal.uint) : text :=
  match d with
  | Decimal.Nil => []
  | Decimal.D0 d => 48 :: digits d
  | Decimal.D1 d => 49 :: digits d
  | Decimal.D2 d => 50 :: digits d
  | Decimal.D3 d => 51 :: digits d
  | Decimal.D4 d => 52 :: digits d
  | Decimal.D5 d => 53 :: digits d
  | Decimal.D6 d => 54 :: digits d
  | Decimal.D7 d => 55 :: digits d
  | Decimal.D8 d => 56 :: digits d
  | Decimal.D9 d => 57 :: digits d
  end.

(** [str(n)] for a count. *)
Definition str_nat (n : nat) : text := digits (Nat.to_uint n).

(** A character that makes the writer quote the field it occurs in (minimal
    quoting; a line break cannot occur in a word). *)
Definition special (c : codepoint) : bool :=
  (c =? COMMA) || (c =? QUOTE) || (c =? LF) || (c =? CR).

(** The content of a quoted field: every quote doubled. *)
Fixpoint double_quotes (field : text) : text :=
  match field with
  | [] => []
  | c :: r => if c =? QUOTE then QUOTE :: QUOTE :: double_quotes r
              else c :: double_quotes r
  end.

Definition csv_field (field : text) : text :=
  if existsb special field then QUOTE :: double_quotes field ++ [QUOTE]
  else field.

Definition csv_line (fields : list text) : text :=
  match fields with
  | [] => [LF]
  | f :: r => csv_field f ++ flat_map (fun g => COMMA :: csv_field g) r ++ [LF]
  end.

Definition csv_row (r : row) : list text := [Word r; str_nat (Count r)].

(** [df.to_csv(index=False)] for a frame with the columns [Word] and
    [Count]. *)
Definition to_csv (df : list row) : text :=
  csv_line [txt "Word"; txt "Count"] ++ flat_map (fun r => csv_line (csv_row r)) df.

(** *** Reading CSV

    The repository has no CSV reader.  To state that the export can be read
    back, here is a reader of the dialect [to_csv] writes: fields separated
    by commas, records ended by a line feed, a field that starts with a quote
    runs to the next quote that is not doubled. *)
Inductive reader_state := Unquoted | Quoted | QuoteSeen.

(** [read_records st field record input]: the records of [input], when the
    reader is in state [st] with the characters [field] of the current field
    and the fields [record] of the current record already read. *)
Fixpoint read_records (st : reader_state) (field : text) (record : list text)
    (input : text) : option (list (list text)) :=
  match input with
  | [] =>
      match st with
      | Quoted => None
      | Unquoted =>
          match field, record with
          | [], [] => Some []
          | _, _ => Some [record ++ [field]]
          end
      | QuoteSeen => Some [record ++ [field]]
      end
  | c :: r =>
      match st with
      | Unquoted =>
          if c =? COMMA then read_records Unquoted [] (record ++ [field]) r
          else if c =? LF then cons (record ++ [field]) <$> read_records Unquoted [] [] r
          else if c =? QUOTE then
            match field with
            | [] => read_records Quoted [] record r
            | _ => None
            end
          else read_records Unquoted (field ++ [c]) record r
      | Quoted =>
          if c =? QUOTE then read_records QuoteSeen field record r
          else read_records Quoted (field ++ [c]) record r
      | QuoteSeen =>
          if c =? QUOTE then read_records Quoted (field ++ [QUOTE]) record r
          else if c =? COMMA then read_records Unquoted [] (record ++ [field]) r
          else if c =? LF then cons (record ++ [field]) <$> read_records Unquoted [] [] r
          else None
      end
  end.

Definition digit_of (c : codepoint) (d : Decimal.uint) : option Decimal.uint :=
  if c =? 48 then Some (Decimal.D0 d) else if c =? 49 then Some (Decimal.D1 d)
  else if c =? 50 then Some (Decimal.D2 d) else if c =? 51 then Some (Decimal.D3 d)
  else if c =? 52 then Some (Decimal.D4 d) else if c =? 53 then Some (Decimal.D5 d)
  else if c =? 54 then Some (Decimal.D6 d) else if c =? 55 then Some (Decimal.D7 d)
  else if c =? 56 then Some (Decimal.D8 d) else if c =? 57 then Some (Decimal.D9 d)
  else None.

Fixpoint undigits (s : text) : option Decimal.uint :=
  match s with
  | [] => Some Decimal.Nil
  | c :: r => d ← undigits r; digit_of c d
  end.

(** A count written in decimal. *)
Definition read_nat (s : text) : option nat :=
  match s with
  | [] => None
  | _ => Nat.of_uint <$> undigits s
  end.

Definition read_row (record : list text) : option row :=
  match record with
  | [w; c] => Row w <$> read_nat c
  | _ => None
  end.

Fixpoint read_rows (records : list (list text)) : option (list row) :=
  match records with
  | [] => Some []
  | record :: rest =>
      match read_row record, read_rows rest with
      | Some r, Some rs => Some (r :: rs)
      | _, _ => None
      end
  end.

(** The frequency table of a CSV text with the header [Word,Count]. *)
Definition read_csv (s : text) : option (list row) :=
  match read_records Unquoted [] [] s with
  | Some (header :: records) =>
      if decide (header = [txt "Word"; txt "Count"])
      then read_rows records
      else None
  | _ => None
  end.

(** ** The script

    Streamlit runs [word.py] from top to bottom on every interaction.  A run
    reads the current values of the widgets, adds elements to the page and
    calls into libraries; it ends at the last line, at [st.stop()], or with an
    exception that no line of the script catches. *)

(** Exceptions that the libraries raise. *)
Inductive exn :=
| UnicodeDecodeError
| UnicodeEncodeError
| LibraryError (what : string).

Record uploaded_file := UploadedFile {
  name : text;         (* [uploaded_file.name] *)
  type_ : text;        (* [uploaded_file.type], the declared MIME type *)
  size : N;            (* [uploaded_file.size] *)
  getvalue : bytes     (* [uploaded_file.getvalue()] *)
}.

(** What the widgets return during one run. *)
Record widgets := Widgets {
  uploaded : option uploaded_file;    (* [st.file_uploader] *)
  use_standard_stopwords : bool;      (* sidebar checkbox *)
  picked : list text;                 (* sidebar multiselect *)
  width : N;                          (* sidebar sliders *)
  height : N;
  format_ : text;                     (* [st.selectbox] *)
  resolution : N;                     (* [st.slider] *)
  save_clicked : bool;                (* [st.button] *)
  download_clicked : bool             (* [st.button] *)
}.

(** How a run, or a part of it, ends. *)
Inductive outcome (A : Type) :=
| Done (a : A)
| Stopped
| Raised (e : exn).
Arguments Done {A} a.
Arguments Stopped {A}.
Arguments Raised {A} e.

(** What a run leaves behind, in order: elements of the page and calls of
    the renderer. *)
Inductive event (figure : Type) :=
| st_title (s : text)
| st_subheader (s : text)
| st_file_uploader (label : text) (types : list text)
| st_write_details (FileName FileType : text) (FileSize : N)
| st_error (message : text)
| st_sidebar_checkbox (label : text) (value : bool)
| st_sidebar_multiselect (label : text) (options : list text)
| st_sidebar_slider (label : text) (lo hi value step : N)
| call_generate (w h : N) (t : text)
| st_pyplot (fig : figure)
| st_selectbox (label : text) (options : list text)
| st_slider (label : text) (lo hi value step : N)
| st_button (label : text)
| st_markdown (html : text)
| st_write_table (df : list row)
| st_exception (e : exn).
Arguments st_title {figure} s.
Arguments st_subheader {figure} s.
Arguments st_file_uploader {figure} label types.
Arguments st_write_details {figure} FileName FileType FileSize.
Arguments st_error {figure} message.
Arguments st_sidebar_checkbox {figure} label value.
Arguments st_sidebar_multiselect {figure} label options.
Arguments st_sidebar_slider {figure} label lo hi value step.
Arguments call_generate {figure} w h t.
Arguments st_pyplot {figure} fig.
Arguments st_selectbox {figure} label options.
Arguments st_slider {figure} label lo hi value step.
Arguments st_button {figure} label.
Arguments st_markdown {figure} html.
Arguments st_write_table {figure} df.
Arguments st_exception {figure} e.

(** The renderer was called. *)
Definition is_generate {figure} (e : event figure) : bool :=
  match e with call_generate _ _ _ => true | _ => false end.

(** The word cloud or the frequency table was asked for or shown. *)
Definition is_output {figure} (e : event figure) : bool :=
  match e with
  | call_generate _ _ _ | st_pyplot _ | st_write_table _ => true
  | _ => false
  end.

(** The libraries behind the script: [wordcloud.STOPWORDS] and [str.lower];
    the type of figures; the text of each page of a PDF ([PyPDF2]) and of
    each paragraph of a Word document ([docx]); the figure of
    [WordCloud(width, height, ...).generate(text)] once drawn; the bytes of
    [plt.savefig]; and [base64.b64encode(...).decode()]. *)
Record libraries := Libraries {
  STOPWORDS : gset text;
  lower : text -> text;
  figure : Type;
  pdf_pages : bytes -> exn + list text;
  docx_paragraphs : bytes -> exn + list text;
  generate : N -> N -> text -> exn + figure;
  savefig : figure -> text -> N -> exn + bytes;
  b64encode : bytes -> text
}.

Section Script.

Variable L : libraries.

(** A computation of the script: its events and its outcome. *)
Definition script (A : Type) : Type := list (event (figure L)) * outcome A.

#[local] Instance script_ret : MRet script := fun A a => ([], Done a).

#[local] Instance script_bind : MBind script := fun A B k c =>
  match c with
  | (evs, Done a) => let (evs', o) := k a in (evs ++ evs', o)
  | (evs, Stopped) => (evs, Stopped)
  | (evs, Raised e) => (evs, Raised e)
  end.

Definition emit (e : event (figure L)) : script unit := ([e], Done tt).

(** [st.stop()] *)
Definition st_stop {A} : script A := ([], Stopped).

(** The result of a library call: its value, or its exception passed on. *)
Definition call {A} (r : exn + A) : script A :=
  match r with
  | inl e => ([], Raised e)
  | inr a => ([], Done a)
  end.

(** [read_txt], lines 14-15. *)
Definition read_txt (file : uploaded_file) : script text :=
  match utf8_decode (getvalue file) with
  | Some t => mret t
  | None => call (inl UnicodeDecodeError)
  end.

(** [read_docx], lines 18-20. *)
Definition read_docx (file : uploaded_file) : script text :=
  paragraphs ← call (docx_paragraphs L (getvalue file));
  mret (join paragraphs).

(** [read_pdf], lines 23-25. *)
Definition read_pdf (file : uploaded_file) : script text :=
  pages ← call (pdf_pages L (getvalue file));
  mret (join pages).

(** [get_image_download_link], lines 35-37. *)
Definition get_image_download_link (buffered : bytes) (fmt : text) : text :=
  let image_base64 := b64encode L buffered in
  txt "<a href=" ++ [QUOTE] ++ txt "data:image/" ++ fmt ++ txt ";base64,"
  ++ image_base64 ++ [QUOTE] ++ txt " download=" ++ [QUOTE] ++ txt "wordcloud."
  ++ fmt ++ [QUOTE] ++ txt ">Download Plot as " ++ fmt ++ txt "</a>".

(** [get_table_download_link], lines 40-43. *)
Definition get_table_download_link (df : list row) (filename file_label : text)
    : script text :=
  let csv := to_csv df in
  match utf8_encode csv with
  | None => call (inl UnicodeEncodeError)
  | Some data =>
      let b64 := b64encode L data in
      mret (txt "<a href=" ++ [QUOTE] ++ txt "data:file/csv;base64," ++ b64
            ++ [QUOTE] ++ txt " download=" ++ [QUOTE] ++ filename ++ [QUOTE]
            ++ txt ">" ++ file_label ++ txt "</a>")
  end.

Definition text_plain : text := txt "text/plain".
Definition application_pdf : text := txt "application/pdf".
Definition application_docx : text :=
  txt "application/vnd.openxmlformats-officedocument.wordprocessingml.document".

(** The message of line 67; it starts with U+274C. *)
Definition unsupported_message : text :=
  10060 :: txt " File type not supported. Please upload a TXT, PDF, or DOCX file.".

(** Lines 60-68: the text of the file, by its declared type. *)
Definition extract (file : uploaded_file) : script text :=
  if decide (type_ file = text_plain) then read_txt file
  else if decide (type_ file = application_pdf) then read_pdf file
  else if decide (type_ file = application_docx) then read_docx file
  else emit (st_error unsupported_message);; st_stop.

(** What [st.sidebar.multiselect] returns: selected options, so only words
    that are among the options it was given. *)
Definition multiselect (options picks : list text) : list text :=
  filter (fun p => p ∈ options) picks.

(** Lines 89-122: the cloud, the table and their downloads. *)
Definition render (w : widgets) (t : text) : script unit :=
  emit (st_sidebar_slider (txt "Select Word Cloud Width") 400 2000 1200 50);;
  emit (st_sidebar_slider (txt "Select Word Cloud Height") 200 2000 800 50);;
  emit (st_subheader (txt "Generated Word Cloud"));;
  emit (call_generate (width w) (height w) t);;
  fig ← call (generate L (width w) (height w) t);
  emit (st_pyplot fig);;
  emit (st_selectbox (txt "Select file format to save the plot")
          [txt "png"; txt "jpeg"; txt "svg"; txt "pdf"]);;
  emit (st_slider (txt "Select Resolution") 100 500 300 50);;
  emit (st_button (txt "Save as " ++ format_ w));;
  (if save_clicked w then
     buffered ← call (savefig L fig (format_ w) (resolution w));
     emit (st_markdown (get_image_download_link buffered (format_ w)))
   else mret tt);;
  emit (st_subheader (txt "Word Count Table"));;
  let words := split t in
  let word_count := word_count words in
  emit (st_write_table word_count);;
  emit (st_button (txt "Download Word Count Table as CSV"));;
  if download_clicked w then
    link ← get_table_download_link word_count (txt "word_count.csv")
             (txt "Click Here to Download");
    emit (st_markdown link)
  else mret tt.

(** Lines 54-122: what is done with an uploaded file. *)
Definition process (w : widgets) (file : uploaded_file) : script unit :=
  emit (st_write_details (name file) (type_ file) (size file));;
  t ← extract file;
  let words := split t in
  let word_count := word_count words in
  emit (st_sidebar_checkbox (txt "Use standard stopwords?") true);;
  let top_words := Word <$> take 50 word_count in
  emit (st_sidebar_multiselect (txt "Additional stopwords:") (sorted top_words));;
  let additional_stopwords := multiselect (sorted top_words) (picked w) in
  let all_stopwords :=
    selected_stopwords (STOPWORDS L) (use_standard_stopwords w)
      additional_stopwords in
  let t := filter_stopwords (STOPWORDS L) (lower L) t all_stopwords in
  if decide (t = []) then mret tt else render w t.

(** The subheader of line 47; it starts with U+1F4C1. *)
Definition upload_subheader : text :=
  128193 :: txt " Upload a PDF, DOCX, or TXT file to generate a word cloud".

(** One run of [word.py]. *)
Definition word_py (w : widgets) : script unit :=
  emit (st_title (txt "Word Cloud Generator"));;
  emit (st_subheader upload_subheader);;
  emit (st_file_uploader (txt "Choose a file") [txt "txt"; txt "pdf"; txt "docx"]);;
  match uploaded w with
  | Some file => process w file
  | None => mret tt
  end.

(** The page after a run under Streamlit: the elements of the run, followed,
    when an exception escaped the script, by the box in which Streamlit
    reports it.  The session goes on either way, and the next interaction
    runs the script again. *)
Definition page (w : widgets) : list (event (figure L)) :=
  match word_py w with
  | (evs, Raised e) => evs ++ [st_exception e]
  | (evs, _) => evs
  end.

End Script.

(** Names for parts of a run. *)

(** The elements of lines 46-50. *)
Definition preamble {figure} : list (event figure) :=
  [st_title (txt "Word Cloud Generator");
   st_subheader upload_subheader;
   st_file_uploader (txt "Choose a file") [txt "txt"; txt "pdf"; txt "docx"]].

(** The element of lines 56-57. *)
Definition details {figure} (file : uploaded_file) : event figure :=
  st_write_details (name file) (type_ file) (size file).

(** Lines 71-77: the words offered as additional stopwords for the text [t],
    and the two widgets of the sidebar. *)
Definition candidates (t : text) : list text :=
  sorted (Word <$> take 50 (word_count (split t))).

Definition stopword_widgets {figure} (t : text) : list (event figure) :=
  [st_sidebar_checkbox (txt "Use standard stopwords?") true;
   st_sidebar_multiselect (txt "Additional stopwords:") (candidates t)].

(** Lines 79-85: the text after filtering, for the extracted text [t]. *)
Definition final_text (L : libraries) (w : widgets) (t : text) : text :=
  filtered_text (STOPWORDS L) (lower L) (use_standard_stopwords w)
    (multiselect (candidates t) (picked w)) t.

(** Libraries for examples: the list of [wordcloud], lowercasing below 256,
    documents without text, figures without content. *)
Definition sample_libraries : libraries := {|
  STOPWORDS := wordcloud_STOPWORDS;
  lower := lower_latin1;
  figure := unit;
  pdf_pages := fun _ => inr [];
  docx_paragraphs := fun _ => inr [];
  generate := fun _ _ _ => inr tt;
  savefig := fun _ _ _ => inr [];
  b64encode := fun _ => []
|}.

(** Widgets as they are when the page is first shown, with [file] uploaded. *)
Definition first_run (file : uploaded_file) : widgets := {|
  uploaded := Some file;
  use_standard_stopwords := true;
  picked := [];
  width := 1200;
  height := 800;
  format_ := txt "png";
  resolution := 300;
  save_clicked := false;
  download_clicked := false
|}.

(** Files for examples. *)

(** The text ["the cat"] as the bytes of a plain-text file. *)
Definition the_cat_bytes : bytes :=
  [Byte.x74; Byte.x68; Byte.x65; Byte.x20; Byte.x63; Byte.x61; Byte.x74].

(** An empty plain-text file. *)
Definition empty_file : uploaded_file :=
  {| name := txt "empty.txt"; type_ := text_plain; size := 0; getvalue := [] |}.

(** A file declared as [application/zip]. *)
Definition zip_file : uploaded_file :=
  {| name := txt "a.zip"; type_ := txt "application/zip"; size := 2;
     getvalue := [Byte.x50; Byte.x4b] |}.

(** A plain-text file whose only byte, [0xFF], starts no UTF-8 sequence. *)
Definition broken_file : uploaded_file :=
  {| name := txt "broken.txt"; type_ := text_plain; size := 1;
     getvalue := [Byte.xff] |}.

(** A plain-text file with the bytes of ["the cat"]. *)
Definition the_cat_file : uploaded_file :=
  {| name := txt "a.txt"; type_ := text_plain; size := 7;
     getvalue := the_cat_bytes |}.

(** Libraries whose PDF reader rejects every file. *)
Definition unreadable_pdf_libraries : libraries := {|
  STOPWORDS := wordcloud_STOPWORDS;
  lower := lower_latin1;
  figure := unit;
  pdf_pages := fun _ => inl (LibraryError "PdfReadError");
  docx_paragraphs := fun _ => inr [];
  generate := fun _ _ _ => inr tt;
  savefig := fun _ _ _ => inr [];
  b64encode := fun _ => []
|}.

(** A file declared as PDF. *)
Definition pdf_file : uploaded_file :=
  {| name := txt "a.pdf"; type_ := application_pdf; size := 1;
     getvalue := [Byte.x25] |}.

(** * Properties *)

(** ** Splitting and joining *)

Lemma flush_token cur : token cur -> flush cur = [cur].
Proof. intros [Hne _]. destruct cur; [done | reflexivity]. Qed.

Lemma split_from_word cur w rest :
  Forall (fun c => is_space c = false) w ->
  split_from cur (w ++ rest) = split_from (cur ++ w) rest.
Proof.
  intros Hw. revert cur. induction Hw as [| c w Hc _ IH]; intros cur; simpl.
  - by rewrite app_nil_r.
  - rewrite Hc, IH. by rewrite <- app_assoc.
Qed.

Lemma split_from_tokens cur s :
  Forall (fun c => is_space c = false) cur ->
  Forall token (split_from cur s).
Proof.
  assert (Hflush : forall w, Forall (fun c => is_space c = false) w ->
                         Forall token (flush w)).
  { intros [| c0 cur0] Hcur0; [constructor |].
    apply Forall_cons; split; [by split | constructor]. }
  revert cur. induction s as [| c r IH]; intros cur Hcur; simpl.
  - by apply Hflush.
  - destruct (is_space c) eqn:Hc.
    + apply Forall_app; split; [by apply Hflush | apply IH; constructor].
    + apply IH, Forall_app; split; [done |].
      apply Forall_cons; split; [done | constructor].
Qed.

Lemma split_tokens s : Forall token (split s).
Proof. apply split_from_tokens. constructor. Qed.

Lemma split_join words : Forall token words -> split (join words) = words.
Proof.
  unfold split. induction 1 as [| w r Hw Hr IH]; [reflexivity |].
  destruct r as [| w' r'].
  - simpl. rewrite <- (app_nil_r w) at 1.
    rewrite split_from_word by apply Hw. simpl. by apply flush_token.
  - change (join (w :: w' :: r')) with (w ++ SPACE :: join (w' :: r')).
    rewrite split_from_word by apply Hw.
    change (split_from ([] ++ w) (SPACE :: join (w' :: r')))
      with (flush w ++ split_from [] (join (w' :: r'))).
    rewrite IH. by rewrite flush_token.
Qed.

Lemma join_nil words : Forall token words -> join words = [] -> words = [].
Proof.
  intros Hall Hj. destruct Hall as [| w r [Hne _] _]; [done |].
  destruct w; [done |]. by destruct r.
Qed.

Lemma split_from_push x cur s :
  cur ≠ [] ->
  split_from (x :: cur) s
  = match split_from cur s with
    | w :: ws => (x :: w) :: ws
    | [] => []
    end.
Proof.
  revert cur. induction s as [| c r IH]; intros cur Hcur; simpl.
  - by destruct cur.
  - destruct (is_space c); [by destruct cur |].
    apply IH. by destruct cur.
Qed.

Lemma split_spaces sp rest :
  Forall (fun c => is_space c = true) sp -> split (sp ++ rest) = split rest.
Proof.
  unfold split. induction 1 as [| c sp Hc _ IH]; [done |].
  simpl. by rewrite Hc.
Qed.

Lemma split_token_rest w rest :
  token w ->
  match rest with [] => True | c :: _ => is_space c = true end ->
  split (w ++ rest) = w :: split rest.
Proof.
  intros Hw Hrest. unfold split. rewrite split_from_word by apply Hw.
  destruct rest as [| c r]; simpl.
  - by apply flush_token.
  - rewrite Hrest. by rewrite flush_token.
Qed.

(** The tokens of a text from those of the text without its first
    character. *)
Lemma split_cons c r :
  split (c :: r)
  = if is_space c then split r
    else match r with
         | [] => [[c]]
         | c' :: _ =>
             if is_space c' then [c] :: split r
             else match split r with
                  | w :: ws => (c :: w) :: ws
                  | [] => []
                  end
         end.
Proof.
  unfold split. cbn [split_from]. destruct (is_space c) eqn:Hc; [done |].
  destruct r as [| c' r']; [done |]. cbn [split_from app].
  destruct (is_space c') eqn:Hc'; [done |].
  by apply (split_from_push c [c'] r').
Qed.

(** [split] gives whitespace-delimited tokens, and they are the only ones. *)
Lemma delimited_unique T ws : whitespace_delimited T ws -> ws = split T.
Proof.
  induction 1 as [sp Hsp | sp w rest ws Hsp Hw Hrest _ IH].
  - rewrite <- (app_nil_r sp). by rewrite split_spaces.
  - rewrite split_spaces, split_token_rest by done. by rewrite IH.
Qed.

Lemma delimited_cons_space c r ws :
  is_space c = true -> whitespace_delimited r ws -> whitespace_delimited (c :: r) ws.
Proof.
  intros Hc Hd. destruct Hd as [sp Hsp | sp w rest ws' Hsp Hw Hrest Hd].
  - apply delimited_end. by constructor.
  - apply (delimited_token (c :: sp) w rest ws'); [by constructor | done ..].
Qed.

Lemma delimited_cons_char c r ws' :
  is_space c = false ->
  match r with [] => False | c' :: _ => is_space c' = false end ->
  whitespace_delimited r ws' ->
  exists w ws, ws' = w :: ws ∧ whitespace_delimited (c :: r) ((c :: w) :: ws).
Proof.
  intros Hc Hr Hd. revert Hr.
  destruct Hd as [sp Hsp | sp w rest ws Hsp Hw Hrest Hd]; intros Hr.
  - destruct Hsp as [| c' sp Hc' _]; simpl in Hr; [done | congruence].
  - destruct Hsp as [| c' sp Hc' _]; [| simpl in Hr; congruence].
    exists w, ws. split; [done |].
    apply (delimited_token [] (c :: w) rest ws); [constructor | | done ..].
    destruct Hw as [_ Hw]. split; [done | by constructor].
Qed.

Lemma split_delimited T : whitespace_delimited T (split T).
Proof.
  induction T as [| c r IH]; [apply delimited_end; constructor |].
  rewrite split_cons. destruct (is_space c) eqn:Hc.
  { by apply delimited_cons_space. }
  destruct r as [| c' r'].
  { apply (delimited_token [] [c] [] []); [constructor | | done |].
    - split; [done | by repeat constructor].
    - apply delimited_end. constructor. }
  destruct (is_space c') eqn:Hc'.
  { apply (delimited_token [] [c] (c' :: r') (split (c' :: r')));
      [constructor | | done ..].
    split; [done | by repeat constructor]. }
  destruct (delimited_cons_char c (c' :: r') _ Hc Hc' IH) as (w & ws & E & Hd).
  by rewrite E.
Qed.

Section FilterFacts.

Variable STOPWORDS : gset text.
Variable lower : text -> text.

Lemma filter_keeps_tokens (P : text -> Prop) `{!forall w, Decision (P w)} s :
  Forall token (filter P (split s)).
Proof.
  apply Forall_forall. intros w Hw. apply list_elem_of_filter in Hw as [_ Hw].
  revert w Hw. apply Forall_forall, split_tokens.
Qed.

Lemma filter_twice (P : text -> Prop) `{!forall w, Decision (P w)} (l : list text) :
  filter P (filter P l) = filter P l.
Proof.
  induction l as [| x l IH]; [done |].
  rewrite filter_cons. destruct (decide (P x)); [| done].
  by rewrite filter_cons_True, IH.
Qed.

(** What [filter_stopwords] returns splits back into the tokens it kept. *)
Lemma split_filter_stopwords t A :
  split (filter_stopwords STOPWORDS lower t A)
  = filter (fun word => lower word ∉ STOPWORDS ∪ A) (split t).
Proof. unfold filter_stopwords. apply split_join, filter_keeps_tokens. Qed.

(** With the standard list requested or not, the filtered text is the same:
    [filter_stopwords] adds [STOPWORDS] to the set it is given. *)
Lemma filtered_text_checkbox b additional t :
  filtered_text STOPWORDS lower b additional t
  = filtered_text STOPWORDS lower true additional t.
Proof.
  destruct b; [done |]. unfold filtered_text, filter_stopwords, selected_stopwords.
  f_equal. apply list_filter_iff. intros w. rewrite !elem_of_union. tauto.
Qed.

End FilterFacts.

(** ** The frequency table *)

Lemma text_le_total : Total text_le.
Proof.
  intros a. unfold text_le. induction a as [| x a IH]; intros [| y b]; simpl; auto.
  destruct (N.ltb_spec x y), (N.ltb_spec y x); auto; lia.
Qed.

Lemma count_desc_total : Total count_desc.
Proof. intros r1 r2. unfold count_desc. lia. Qed.

Lemma count_desc_trans : Transitive count_desc.
Proof. intros r1 r2 r3. unfold count_desc. lia. Qed.

Lemma sorted_perm words : sorted words ≡ₚ words.
Proof. apply merge_sort_Permutation. Qed.

Lemma word_count_perm words : word_count words ≡ₚ groupby_size words.
Proof. apply merge_sort_Permutation. Qed.

Lemma count_cons k w words :
  count k (w :: words) = ((if decide (w = k) then 1 else 0) + count k words)%nat.
Proof. unfold count. rewrite filter_cons. by destruct (decide (w = k)). Qed.

Lemma count_pos k words : k ∈ words -> (1 <= count k words)%nat.
Proof.
  induction 1 as [k l | k w l _ IH]; rewrite count_cons.
  - rewrite decide_True by done. lia.
  - lia.
Qed.

(** Over keys without repetition, exactly one key counts a given word. *)
Lemma sum_indicator (w : text) (keys : list text) :
  NoDup keys -> w ∈ keys ->
  sum_list_with (fun k => if decide (w = k) then 1 else 0)%nat keys = 1%nat.
Proof.
  induction 1 as [| k keys Hk Hnd IH]; intros Hin; [by apply elem_of_nil in Hin |].
  simpl. apply elem_of_cons in Hin as [-> | Hin].
  - rewrite decide_True by done. f_equal. clear IH Hnd.
    induction keys as [| k' keys IH]; [done |]. simpl.
    apply not_elem_of_cons in Hk as [Hne Hk].
    rewrite decide_False by done. by apply IH.
  - rewrite decide_False by (by intros <-). by rewrite IH.
Qed.

Lemma sum_list_with_plus {A} (f g : A -> nat) (l : list A) :
  sum_list_with (fun x => f x + g x)%nat l
  = (sum_list_with f l + sum_list_with g l)%nat.
Proof. induction l as [| x l IH]; simpl; [done | rewrite IH; lia]. Qed.

Lemma sum_list_with_fmap {A B} (f : A -> B) (g : B -> nat) (l : list A) :
  sum_list_with g (f <$> l) = sum_list_with (fun x => g (f x)) l.
Proof. induction l as [| x l IH]; csimpl; [done | by rewrite IH]. Qed.

Lemma sum_list_with_pointwise {A} (f g : A -> nat) (l : list A) :
  (forall x, f x = g x) -> sum_list_with f l = sum_list_with g l.
Proof. intros E. induction l as [| x l IH]; simpl; [done | by rewrite E, IH]. Qed.

(** Counting every key of a duplicate-free list that covers the words counts
    every word once. *)
Lemma sum_count_length (keys words : list text) :
  NoDup keys -> (forall w, w ∈ words -> w ∈ keys) ->
  sum_list_with (fun k => count k words) keys = length words.
Proof.
  intros Hnd. induction words as [| w words IH]; intros Hcov.
  - clear Hnd Hcov. induction keys as [| k keys IHk]; [done |]. simpl.
    by rewrite IHk.
  - rewrite (sum_list_with_pointwise _
               (fun k => (if decide (w = k) then 1 else 0) + count k words)%nat)
      by (intros k; apply count_cons).
    rewrite sum_list_with_plus, sum_indicator, IH; [done | | done |].
    + intros w' Hw'. apply Hcov. by right.
    + apply Hcov. by left.
Qed.

Lemma groupby_size_words words :
  Word <$> groupby_size words = sorted (remove_dups words).
Proof.
  unfold groupby_size. rewrite <- list_fmap_compose.
  induction (sorted (remove_dups words)) as [| k l IH]; [done |].
  csimpl. by rewrite IH.
Qed.

Lemma groupby_size_elem r words :
  r ∈ groupby_size words <-> Word r ∈ words ∧ Count r = count (Word r) words.
Proof.
  unfold groupby_size. rewrite list_elem_of_fmap. split.
  - intros (k & -> & Hk). simpl. split; [| done].
    by rewrite sorted_perm, elem_of_remove_dups in Hk.
  - intros [Hw Hc]. exists (Word r). split.
    + destruct r as [w c]. simpl in *. by subst c.
    + by rewrite sorted_perm, elem_of_remove_dups.
Qed.

Lemma groupby_size_sum words :
  sum_list_with Count (groupby_size words) = length words.
Proof.
  unfold groupby_size. rewrite sum_list_with_fmap. simpl.
  apply sum_count_length.
  - rewrite sorted_perm. apply NoDup_remove_dups.
  - intros w Hw. by rewrite sorted_perm, elem_of_remove_dups.
Qed.

Lemma word_count_elem r words :
  r ∈ word_count words <-> Word r ∈ words ∧ Count r = count (Word r) words.
Proof. by rewrite word_count_perm, groupby_size_elem. Qed.

Lemma word_count_words words w : w ∈ Word <$> word_count words <-> w ∈ words.
Proof.
  rewrite word_count_perm, groupby_size_words, sorted_perm.
  apply elem_of_remove_dups.
Qed.

Lemma word_count_NoDup words : NoDup (Word <$> word_count words).
Proof.
  rewrite word_count_perm, groupby_size_words, sorted_perm.
  apply NoDup_remove_dups.
Qed.

Lemma word_count_sorted words : StronglySorted count_desc (word_count words).
Proof.
  apply StronglySorted_merge_sort;
    [apply count_desc_trans | apply count_desc_total].
Qed.

(** ** CSV: what is written is what is read *)

Lemma read_plain w field record rest :
  Forall (fun c => special c = false) w ->
  read_records Unquoted field record (w ++ rest)
  = read_records Unquoted (field ++ w) record rest.
Proof.
  intros Hw. revert field. induction Hw as [| c w Hc _ IH]; intros field.
  - by rewrite app_nil_r.
  - simpl. unfold special in Hc.
    destruct (c =? COMMA), (c =? LF), (c =? QUOTE); try discriminate Hc.
    rewrite IH. by rewrite <- app_assoc.
Qed.

Lemma read_quoted w field record rest :
  read_records Quoted field record (double_quotes w ++ QUOTE :: rest)
  = read_records QuoteSeen (field ++ w) record rest.
Proof.
  revert field. induction w as [| c w IH]; intros field.
  - by rewrite app_nil_r.
  - simpl. destruct (c =? QUOTE) eqn:Hc.
    + apply N.eqb_eq in Hc as ->. simpl. rewrite IH. by rewrite <- app_assoc.
    + simpl. rewrite Hc, IH. by rewrite <- app_assoc.
Qed.

Lemma existsb_special w :
  existsb special w = false -> Forall (fun c => special c = false) w.
Proof.
  induction w as [| c w IH]; simpl; [constructor |].
  intros [Hc Hw]%orb_false_iff. constructor; auto.
Qed.

(** A written field is read back as the field, up to its separator. *)
Lemma read_field w record rest :
  read_records Unquoted [] record (csv_field w ++ COMMA :: rest)
  = read_records Unquoted [] (record ++ [w]) rest
  ∧ read_records Unquoted [] record (csv_field w ++ LF :: rest)
    = cons (record ++ [w]) <$> read_records Unquoted [] [] rest.
Proof.
  unfold csv_field. destruct (existsb special w) eqn:Hw.
  - rewrite <- !app_comm_cons, <- !app_assoc. simpl.
    by rewrite !read_quoted.
  - apply existsb_special in Hw. by rewrite !read_plain.
Qed.

Lemma read_line a b rest :
  read_records Unquoted [] [] (csv_line [a; b] ++ rest)
  = cons [a; b] <$> read_records Unquoted [] [] rest.
Proof.
  assert (E : csv_line [a; b] ++ rest
              = csv_field a ++ COMMA :: csv_field b ++ LF :: rest).
  { unfold csv_line. simpl. rewrite app_nil_r, <- !app_assoc. simpl.
    by rewrite <- app_assoc. }
  rewrite E, (proj1 (read_field a [] _)). simpl.
  by rewrite (proj2 (read_field b [a] _)).
Qed.

Lemma read_lines (df : list row) :
  read_records Unquoted [] [] (flat_map (fun r => csv_line (csv_row r)) df)
  = Some (csv_row <$> df).
Proof.
  induction df as [| r df IH]; [done |].
  cbn [flat_map]. unfold csv_row at 1. by rewrite read_line, IH.
Qed.

Lemma digits_plain d : Forall (fun c => special c = false) (digits d).
Proof. induction d; simpl; constructor; done. Qed.

Lemma undigits_digits d : undigits (digits d) = Some d.
Proof. induction d; simpl; [done | rewrite IHd; reflexivity ..]. Qed.

Lemma str_nat_nonempty n : str_nat n ≠ [].
Proof.
  unfold str_nat. intros H.
  assert (Hn : Nat.to_uint n ≠ Decimal.Nil).
  { rewrite <- (DecimalNat.Unsigned.of_to n) at 1.
    rewrite DecimalNat.Unsigned.to_of. apply DecimalFacts.unorm_nonnil. }
  by destruct (Nat.to_uint n).
Qed.

Lemma read_nat_str_nat n : read_nat (str_nat n) = Some n.
Proof.
  unfold read_nat. pose proof (str_nat_nonempty n) as Hne.
  destruct (str_nat n) eqn:E; [done |]. rewrite <- E. unfold str_nat.
  rewrite undigits_digits. simpl. by rewrite DecimalNat.Unsigned.of_to.
Qed.

Lemma read_rows_csv_row (df : list row) : read_rows (csv_row <$> df) = Some df.
Proof.
  induction df as [| [w c] df IH]; [done |].
  csimpl. by rewrite read_nat_str_nat, IH.
Qed.

(** Reading what [to_csv] wrote gives the frame back, whatever its words. *)
Lemma read_csv_to_csv (df : list row) : read_csv (to_csv df) = Some df.
Proof.
  unfold read_csv, to_csv. rewrite read_line, read_lines.
  cbn [fmap option_fmap option_map]. rewrite decide_True by done.
  apply read_rows_csv_row.
Qed.

Lemma csv_field_plain w :
  Forall (fun c => special c = false) w -> csv_field w = w.
Proof.
  intros Hw. unfold csv_field.
  assert (existsb special w = false) as ->; [| done].
  induction Hw as [| c w Hc _ IH]; [done |]. simpl. by rewrite Hc, IH.
Qed.

(** The lines of the CSV text. *)
Lemma to_csv_lines (df : list row) :
  to_csv df
  = txt "Word,Count" ++ [LF]
    ++ flat_map (fun r => csv_field (Word r) ++ [COMMA] ++ str_nat (Count r) ++ [LF])
         df.
Proof.
  unfold to_csv.
  change (csv_line [txt "Word"; txt "Count"]) with (txt "Word,Count" ++ [LF]).
  rewrite <- app_assoc. do 2 f_equal. induction df as [| r df IH]; [done |].
  cbn [flat_map]. rewrite IH. f_equal.
  unfold csv_row, csv_line. cbn [flat_map].
  rewrite (csv_field_plain (str_nat _)) by apply digits_plain.
  by rewrite app_nil_r.
Qed.

(** ** UTF-8: what is encoded is what is decoded *)

Lemma to_N_byte_of n : n < 256 -> Byte.to_N (byte_of n) = n.
Proof.
  intros Hn. unfold byte_of. destruct (Byte.of_N n) as [b |] eqn:E.
  - by apply Byte.to_of_N.
  - apply Byte.of_N_None_iff in E. lia.
Qed.

Local Ltac arith :=
  repeat match goal with
  | |- context [?a / ?b] =>
      let q := fresh "q" in let r := fresh "r" in
      pose proof (N.div_mod a b ltac:(lia));
      pose proof (N.mod_lt a b ltac:(lia));
      set (q := a / b) in *; set (r := a mod b) in *; clearbody q r
  | |- context [?a mod ?b] =>
      let q := fresh "q" in let r := fresh "r" in
      pose proof (N.div_mod a b ltac:(lia));
      pose proof (N.mod_lt a b ltac:(lia));
      set (q := a / b) in *; set (r := a mod b) in *; clearbody q r
  end; lia.

Lemma utf8_decode_char c b rest :
  utf8_encode_char c = Some b ->
  utf8_decode (b ++ rest) = cons c <$> utf8_decode rest.
Proof.
  unfold utf8_encode_char.
  destruct (N.ltb_spec c 128) as [H1 | H1].
  { intros [= <-]. cbn [app utf8_decode]. rewrite to_N_byte_of by lia.
    destruct (N.ltb_spec c 128); [done | lia]. }
  destruct (N.ltb_spec c 2048) as [H2 | H2].
  { intros [= <-]. cbn [app utf8_decode]. rewrite !to_N_byte_of by arith.
    assert ((192 + c / 64 <? 128) = false) as -> by (apply N.ltb_ge; arith).
    assert (((194 <=? 192 + c / 64) && (192 + c / 64 <=? 223)) = true) as ->
      by (rewrite andb_true_iff, !N.leb_le; arith).
    assert (continuation (128 + c mod 64) = true) as ->
      by (unfold continuation; rewrite andb_true_iff, !N.leb_le; arith).
    do 2 f_equal. arith. }
  destruct ((55296 <=? c) && (c <=? 57343)) eqn:H3; [discriminate |].
  apply andb_false_iff in H3. rewrite !N.leb_gt in H3.
  destruct (N.ltb_spec c 65536) as [H4 | H4].
  { intros [= <-]. cbn [app utf8_decode]. rewrite !to_N_byte_of by arith.
    assert ((224 + c / 4096 <? 128) = false) as -> by (apply N.ltb_ge; arith).
    assert (((194 <=? 224 + c / 4096) && (224 + c / 4096 <=? 223)) = false) as ->
      by (rewrite andb_false_iff, !N.leb_gt; arith).
    assert (((224 <=? 224 + c / 4096) && (224 + c / 4096 <=? 239)) = true) as ->
      by (rewrite andb_true_iff, !N.leb_le; arith).
    match goal with
    | |- (if ?b then _ else _) = _ =>
        assert (b = true) as ->
          by (unfold continuation;
              rewrite !andb_true_iff, !orb_true_iff, !negb_true_iff,
                !N.leb_le, !N.eqb_neq; arith)
    end.
    do 2 f_equal. arith. }
  destruct (N.ltb_spec c 1114112) as [H5 | H5]; [| discriminate].
  intros [= <-]. cbn [app utf8_decode]. rewrite !to_N_byte_of by arith.
  assert ((240 + c / 262144 <? 128) = false) as -> by (apply N.ltb_ge; arith).
  assert (((194 <=? 240 + c / 262144) && (240 + c / 262144 <=? 223)) = false) as ->
    by (rewrite andb_false_iff, !N.leb_gt; arith).
  assert (((224 <=? 240 + c / 262144) && (240 + c / 262144 <=? 239)) = false) as ->
    by (rewrite andb_false_iff, !N.leb_gt; arith).
  assert (((240 <=? 240 + c / 262144) && (240 + c / 262144 <=? 244)) = true) as ->
    by (rewrite andb_true_iff, !N.leb_le; arith).
  match goal with
  | |- (if ?b then _ else _) = _ =>
      assert (b = true) as ->
        by (unfold continuation;
            rewrite !andb_true_iff, !orb_true_iff, !negb_true_iff,
              !N.leb_le, !N.eqb_neq; arith)
  end.
  do 2 f_equal. arith.
Qed.

Lemma utf8_decode_encode s data :
  utf8_encode s = Some data -> utf8_decode data = Some s.
Proof.
  revert data. induction s as [| c s IH]; intros data; simpl.
  - by intros [= <-].
  - destruct (utf8_encode_char c) as [b |] eqn:Hc; [| discriminate].
    destruct (utf8_encode s) as [bs |]; [| discriminate].
    intros [= <-]. rewrite (utf8_decode_char _ _ _ Hc), (IH bs); done.
Qed.

Lemma byte_of_to_N b : byte_of (Byte.to_N b) = b.
Proof. unfold byte_of. by rewrite Byte.of_to_N. Qed.

Local Ltac bools :=
  repeat match goal with
  | H : _ && _ = true |- _ => apply andb_true_iff in H as [? ?]
  | H : _ || _ = true |- _ => apply orb_true_iff in H
  | H : negb _ = true |- _ => apply negb_true_iff in H
  | H : (_ <=? _) = true |- _ => apply N.leb_le in H
  | H : (_ <=? _) = false |- _ => apply N.leb_gt in H
  | H : (_ <? _) = true |- _ => apply N.ltb_lt in H
  | H : (_ <? _) = false |- _ => apply N.ltb_ge in H
  | H : (_ =? _) = false |- _ => apply N.eqb_neq in H
  | H : negb _ = true \/ _ |- _ => rewrite negb_true_iff, N.eqb_neq, ?N.leb_le in H
  end.

Local Ltac ifs :=
  repeat match goal with
  | |- context [if ?b then _ else _] =>
      let E := fresh "E" in destruct b eqn:E; bools; try lia
  end.

Lemma utf8_encode_char_decoded1 b0 :
  Byte.to_N b0 < 128 -> utf8_encode_char (Byte.to_N b0) = Some [b0].
Proof.
  intros H. unfold utf8_encode_char. ifs. by rewrite byte_of_to_N.
Qed.

Lemma utf8_encode_char_decoded2 b0 b1 :
  let n0 := Byte.to_N b0 in
  let n1 := Byte.to_N b1 in
  (194 <=? n0) && (n0 <=? 223) = true -> continuation n1 = true ->
  utf8_encode_char ((n0 - 192) * 64 + (n1 - 128)) = Some [b0; b1].
Proof.
  intros n0 n1 H0 H1. unfold continuation in H1. bools.
  unfold utf8_encode_char.
  destruct (N.ltb_spec ((n0 - 192) * 64 + (n1 - 128)) 128); [lia |].
  destruct (N.ltb_spec ((n0 - 192) * 64 + (n1 - 128)) 2048); [| lia].
  assert (192 + ((n0 - 192) * 64 + (n1 - 128)) / 64 = n0) as -> by arith.
  assert (128 + ((n0 - 192) * 64 + (n1 - 128)) mod 64 = n1) as -> by arith.
  subst n0 n1. by rewrite !byte_of_to_N.
Qed.

Lemma utf8_encode_char_decoded3 b0 b1 b2 :
  let n0 := Byte.to_N b0 in
  let n1 := Byte.to_N b1 in
  let n2 := Byte.to_N b2 in
  (224 <=? n0) && (n0 <=? 239) = true ->
  continuation n1 && continuation n2
  && (negb (n0 =? 224) || (160 <=? n1))
  && (negb (n0 =? 237) || (n1 <=? 159)) = true ->
  utf8_encode_char ((n0 - 224) * 4096 + (n1 - 128) * 64 + (n2 - 128))
  = Some [b0; b1; b2].
Proof.
  intros n0 n1 n2 H0 H1. unfold continuation in H1. bools.
  set (c := (n0 - 224) * 4096 + (n1 - 128) * 64 + (n2 - 128)).
  assert (Hc : 2048 <= c < 65536 /\ ~ (55296 <= c <= 57343)) by lia.
  unfold utf8_encode_char.
  destruct (N.ltb_spec c 128); [lia |].
  destruct (N.ltb_spec c 2048); [lia |].
  destruct ((55296 <=? c) && (c <=? 57343)) eqn:E; [bools; lia |].
  destruct (N.ltb_spec c 65536); [| lia].
  assert (224 + c / 4096 = n0) as -> by (unfold c; arith).
  assert (128 + (c / 64) mod 64 = n1) as -> by (unfold c; arith).
  assert (128 + c mod 64 = n2) as -> by (unfold c; arith).
  subst n0 n1 n2. by rewrite !byte_of_to_N.
Qed.

Lemma utf8_encode_char_decoded4 b0 b1 b2 b3 :
  let n0 := Byte.to_N b0 in
  let n1 := Byte.to_N b1 in
  let n2 := Byte.to_N b2 in
  let n3 := Byte.to_N b3 in
  (240 <=? n0) && (n0 <=? 244) = true ->
  continuation n1 && continuation n2 && continuation n3
  && (negb (n0 =? 240) || (144 <=? n1))
  && (negb (n0 =? 244) || (n1 <=? 143)) = true ->
  utf8_encode_char ((n0 - 240) * 262144 + (n1 - 128) * 4096
                    + (n2 - 128) * 64 + (n3 - 128))
  = Some [b0; b1; b2; b3].
Proof.
  intros n0 n1 n2 n3 H0 H1. unfold continuation in H1. bools.
  set (c := (n0 - 240) * 262144 + (n1 - 128) * 4096 + (n2 - 128) * 64
            + (n3 - 128)).
  assert (Hc : 65536 <= c < 1114112) by lia.
  unfold utf8_encode_char.
  destruct (N.ltb_spec c 128); [lia |].
  destruct (N.ltb_spec c 2048); [lia |].
  destruct ((55296 <=? c) && (c <=? 57343)) eqn:E; [bools; lia |].
  destruct (N.ltb_spec c 65536); [lia |].
  destruct (N.ltb_spec c 1114112); [| lia].
  assert (240 + c / 262144 = n0) as -> by (unfold c; arith).
  assert (128 + (c / 4096) mod 64 = n1) as -> by (unfold c; arith).
  assert (128 + (c / 64) mod 64 = n2) as -> by (unfold c; arith).
  assert (128 + c mod 64 = n3) as -> by (unfold c; arith).
  subst n0 n1 n2 n3. by rewrite !byte_of_to_N.
Qed.

Lemma cons_fmap_Some (c : codepoint) (o : option text) (s : text) :
  cons c <$> o = Some s -> exists s', o = Some s' ∧ s = c :: s'.
Proof. destruct o as [s' |]; [| discriminate]. intros [= <-]. eauto. Qed.

Lemma utf8_encode_cons c s b data :
  utf8_encode_char c = Some b -> utf8_encode s = Some data ->
  utf8_encode (c :: s) = Some (b ++ data).
Proof. intros Hc Hs. simpl. by rewrite Hc, Hs. Qed.

(** The decoder accepts nothing but what the encoder writes. *)
Lemma utf8_encode_decode data s :
  utf8_decode data = Some s -> utf8_encode s = Some data.
Proof.
  remember (length data) as n eqn:Hn. revert data s Hn.
  induction n as [n IH] using lt_wf_ind. intros [| b0 r0] s Hn.
  { by intros [= <-]. }
  cbn [utf8_decode]. cbv zeta.
  destruct (Byte.to_N b0 <? 128) eqn:E0.
  { intros (s' & Hs' & ->)%cons_fmap_Some.
    apply (utf8_encode_cons _ _ [b0]).
    - apply utf8_encode_char_decoded1. by apply N.ltb_lt.
    - eapply IH; [| reflexivity | done]. subst n. simpl. lia. }
  destruct ((194 <=? Byte.to_N b0) && (Byte.to_N b0 <=? 223)) eqn:E1.
  { destruct r0 as [| b1 r1]; [discriminate |].
    destruct (continuation (Byte.to_N b1)) eqn:E2; [| discriminate].
    intros (s' & Hs' & ->)%cons_fmap_Some.
    apply (utf8_encode_cons _ _ [b0; b1]).
    - by apply utf8_encode_char_decoded2.
    - eapply IH; [| reflexivity | done]. subst n. simpl. lia. }
  destruct ((224 <=? Byte.to_N b0) && (Byte.to_N b0 <=? 239)) eqn:E3.
  { destruct r0 as [| b1 [| b2 r2]]; [discriminate .. |].
    match goal with |- (if ?b then _ else _) = _ -> _ => destruct b eqn:E2 end;
      [| discriminate].
    intros (s' & Hs' & ->)%cons_fmap_Some.
    apply (utf8_encode_cons _ _ [b0; b1; b2]).
    - by apply utf8_encode_char_decoded3.
    - eapply IH; [| reflexivity | done]. subst n. simpl. lia. }
  destruct ((240 <=? Byte.to_N b0) && (Byte.to_N b0 <=? 244)) eqn:E4;
    [| discriminate].
  destruct r0 as [| b1 [| b2 [| b3 r3]]]; [discriminate .. |].
  match goal with |- (if ?b then _ else _) = _ -> _ => destruct b eqn:E2 end;
    [| discriminate].
  intros (s' & Hs' & ->)%cons_fmap_Some.
  apply (utf8_encode_cons _ _ [b0; b1; b2; b3]).
  - by apply utf8_encode_char_decoded4.
  - eapply IH; [| reflexivity | done]. subst n. simpl. lia.
Qed.

(** The bytes that [decode] rejects are those that are the UTF-8 form of no
    text. *)
Lemma utf8_decode_None data :
  utf8_decode data = None <-> ~ exists s, utf8_encode s = Some data.
Proof.
  split.
  - intros Hd [s Hs]. apply utf8_decode_encode in Hs. congruence.
  - intros Hn. destruct (utf8_decode data) as [s |] eqn:Hd; [| done].
    exfalso. apply Hn. exists s. by apply utf8_encode_decode.
Qed.

(** ** Runs of the script *)

Lemma filter_stopwords_no_token STOPWORDS lower t A :
  split (filter_stopwords STOPWORDS lower t A) = [] <->
  filter_stopwords STOPWORDS lower t A = [].
Proof.
  split.
  - rewrite split_filter_stopwords. unfold filter_stopwords. by intros ->.
  - by intros ->.
Qed.

Lemma extract_cases L file :
  (exists t, extract L file = ([], Done t))
  ∨ (exists e, extract L file = ([], Raised e))
  ∨ extract L file = ([st_error unsupported_message], Stopped).
Proof.
  unfold extract, read_txt, read_pdf, read_docx.
  repeat case_decide.
  - destruct (utf8_decode _); [left | right; left]; eauto.
  - destruct (pdf_pages _ _); [right; left | left]; simpl; eauto.
  - destruct (docx_paragraphs _ _); [right; left | left]; simpl; eauto.
  - right; right. reflexivity.
Qed.

(** The renderer is called on [t] only. *)
Lemma render_events L w t :
  Forall (fun e => match e with call_generate _ _ u => u = t | _ => True end)
    (render L w t).1.
Proof.
  unfold render, get_table_download_link.
  destruct (generate _ _ _ _) as [e | fig]; simpl; [repeat constructor |].
  destruct (save_clicked w); simpl.
  - destruct (savefig _ _ _ _) as [e | buf]; simpl; [repeat constructor |].
    destruct (download_clicked w); simpl; [| repeat constructor].
    destruct (utf8_encode _); simpl; repeat constructor.
  - destruct (download_clicked w); simpl; [| repeat constructor].
    destruct (utf8_encode _); simpl; repeat constructor.
Qed.

(** What [process] does once the text [t] of the file is there. *)
Lemma process_extracted L w file t :
  extract L file = ([], Done t) ->
  process L w file
  = if decide (final_text L w t = [])
    then (details file :: stopword_widgets t, Done tt)
    else (details file :: stopword_widgets t ++ (render L w (final_text L w t)).1,
          (render L w (final_text L w t)).2).
Proof.
  intros He. unfold process. rewrite He.
  unfold final_text, filtered_text, candidates.
  unfold mbind, script_bind, emit. cbv beta iota.
  destruct (decide _) as [E | E]; [reflexivity |].
  by destruct (render L w _) as [evs [[] | |]].
Qed.

(** A run is the preamble followed by what is done with the file. *)
Lemma word_py_uploaded L w file :
  uploaded w = Some file ->
  word_py L w = (preamble ++ (process L w file).1, (process L w file).2).
Proof.
  intros Hu. unfold word_py. rewrite Hu. unfold mbind, script_bind, emit.
  by destruct (process L w file) as [evs [[] | |]].
Qed.

(** * The claims *)

(** C1.  Opting out of the standard list has no effect, against what the
    claim says.  For the text ["the cat"], the checkbox off and no additional
    stopword, the claim wants ["the cat"] (the filter of the specification
    with the empty set); lines 79-85 yield ["cat"], in a run of the script the
    renderer is called on ["cat"], and the filtered text never depends on the
    checkbox, because [filter_stopwords] adds [STOPWORDS] again. *)
Theorem optout_keeps_removing_standard_words :
  spec_StopwordFilter lower_latin1 (txt "the cat") (list_to_set []) = txt "the cat"
  ∧ filtered_text wordcloud_STOPWORDS lower_latin1 false [] (txt "the cat")
    = txt "cat"
  ∧ List.filter is_generate
      (page sample_libraries
         {| uploaded := Some (UploadedFile (txt "a.txt") text_plain 7 the_cat_bytes);
            use_standard_stopwords := false; picked := [];
            width := 1200; height := 800; format_ := txt "png";
            resolution := 300; save_clicked := false; download_clicked := false |})
    = [call_generate 1200 800 (txt "cat")]
  ∧ forall STOPWORDS lower additional t,
      filtered_text STOPWORDS lower false additional t
      = filtered_text STOPWORDS lower true additional t.
Proof.
  split; [by vm_compute |]. split; [by vm_compute |]. split.
  - by vm_compute.
  - intros. apply filtered_text_checkbox.
Qed.

(** C2, as the claim states it, fails: with the empty set, ["the cat"] is
    filtered to ["cat"], not to its tokens rejoined, because [the] is in the
    standard list. *)
Lemma empty_set_still_filters :
  filter_stopwords wordcloud_STOPWORDS lower_latin1 (txt "the cat") ∅ = txt "cat"
  ∧ filter_stopwords wordcloud_STOPWORDS lower_latin1 (txt "the cat") ∅
    ≠ join (split (txt "the cat")).
Proof. split; by vm_compute. Qed.

(** C2, amended.  For every text [T], the filter with the empty set of
    additional stopwords returns the tokens of [T] whose lowercased form is
    not in [STOPWORDS], rejoined with single spaces: the output splits into
    exactly these tokens, they come in the order they have in [T], and when no
    token of [T] lowercases to a word of [STOPWORDS] the output is all the
    tokens of [T] rejoined. *)
Theorem filter_stopwords_empty_set (STOPWORDS : gset text) (lower : text -> text)
    (T : text) :
  let kept := filter (fun word => lower word ∉ STOPWORDS) (split T) in
  filter_stopwords STOPWORDS lower T ∅ = join kept
  ∧ split (filter_stopwords STOPWORDS lower T ∅) = kept
  ∧ sublist kept (split T)
  ∧ (Forall (fun word => lower word ∉ STOPWORDS) (split T) ->
     filter_stopwords STOPWORDS lower T ∅ = join (split T)).
Proof.
  intros kept.
  assert (E : filter (fun word => lower word ∉ STOPWORDS ∪ ∅) (split T) = kept).
  { apply list_filter_iff. intros w. by rewrite (right_id_L ∅ (∪)). }
  split; [| split; [| split]].
  - unfold filter_stopwords. by rewrite E.
  - by rewrite split_filter_stopwords.
  - apply sublist_filter.
  - intros Hall. unfold filter_stopwords. rewrite E. f_equal.
    unfold kept. clear E kept. induction Hall as [| w l Hw _ IH]; [done |].
    by rewrite filter_cons_True, IH.
Qed.

Lemma filter_stopwords_empty_set_witness :
  filter_stopwords wordcloud_STOPWORDS lower_latin1 (txt "cat  sat") ∅
  = join (split (txt "cat  sat")).
Proof.
  apply (proj2 (proj2 (proj2 (filter_stopwords_empty_set wordcloud_STOPWORDS
                                lower_latin1 (txt "cat  sat"))))).
  apply (bool_decide_unpack _). by vm_compute.
Defined.

(** C3.  For every text [T] (empty or not), [split T] is the sequence of the
    whitespace-delimited tokens of [T], and the only one; the table
    [word_count] of these tokens has one row per distinct token, each with the
    number of tokens equal to its word and at least 1; the counts sum to the
    number of tokens; and every row has a count at least that of every row
    after it. *)
Theorem word_count_frequency_table (T : text) :
  let words := split T in
  let tbl := word_count words in
  whitespace_delimited T words
  ∧ (forall ws, whitespace_delimited T ws -> ws = words)
  ∧ NoDup (Word <$> tbl)
  ∧ (forall w, w ∈ Word <$> tbl <-> w ∈ words)
  ∧ Forall (fun r => Count r = count (Word r) words ∧ (1 <= Count r)%nat) tbl
  ∧ sum_list_with Count tbl = length words
  ∧ StronglySorted count_desc tbl.
Proof.
  intros words tbl. split; [apply split_delimited |].
  split; [intros ws; apply delimited_unique |].
  split; [apply word_count_NoDup |].
  split; [apply word_count_words |]. split; [| split].
  - apply Forall_forall. intros r [Hw Hc]%word_count_elem.
    split; [done |]. rewrite Hc. by apply count_pos.
  - unfold tbl. rewrite word_count_perm. apply groupby_size_sum.
  - apply word_count_sorted.
Qed.

Lemma word_count_frequency_table_witness :
  [txt "the"; txt "cat"] = split (txt " the  cat").
Proof.
  apply (proj1 (proj2 (word_count_frequency_table (txt " the  cat")))).
  apply (delimited_token [32] (txt "the") (txt "  cat") [txt "cat"]);
    [by repeat constructor | split; [done | by repeat constructor] | done |].
  apply (delimited_token [32; 32] (txt "cat") [] []);
    [by repeat constructor | split; [done | by repeat constructor] | done |].
  apply delimited_end. constructor.
Defined.

(** C4.  Filtering twice with the same set is filtering once. *)
Theorem filter_stopwords_idempotent (STOPWORDS : gset text) (lower : text -> text)
    (T : text) (S : gset text) :
  filter_stopwords STOPWORDS lower (filter_stopwords STOPWORDS lower T S) S
  = filter_stopwords STOPWORDS lower T S.
Proof.
  unfold filter_stopwords at 1. rewrite split_filter_stopwords.
  by rewrite filter_twice.
Qed.

(** C5.  For ["the cat sat on the mat the cat ran"]: the table of the text
    has [the] 3 times, [cat] twice and every other word once; filtering with
    [{the, on}] gives ["cat sat mat cat ran"], whose table has [cat] twice and
    every other word once. *)
Theorem the_cat_sat_example :
  let T := txt "the cat sat on the mat the cat ran" in
  let tbl := word_count (split T) in
  let F := filter_stopwords wordcloud_STOPWORDS lower_latin1 T
             {[ txt "the"; txt "on" ]} in
  let tbl' := word_count (split F) in
  table_count tbl (txt "the") = 3%nat
  ∧ table_count tbl (txt "cat") = 2%nat
  ∧ Forall (fun r => Word r = txt "the" ∨ Word r = txt "cat" ∨ Count r = 1%nat) tbl
  ∧ Word <$> tbl ≡ₚ txt <$> ["the"; "cat"; "sat"; "on"; "mat"; "ran"]%string
  ∧ F = txt "cat sat mat cat ran"
  ∧ table_count tbl' (txt "cat") = 2%nat
  ∧ Forall (fun r => Word r = txt "cat" ∨ Count r = 1%nat) tbl'
  ∧ Word <$> tbl' ≡ₚ txt <$> ["cat"; "sat"; "mat"; "ran"]%string.
Proof.
  assert (Hperm : forall l k : list text,
             NoDup l -> NoDup k -> Forall (.∈ k) l -> Forall (.∈ l) k -> l ≡ₚ k).
  { intros l k Hl Hk Hlk Hkl. apply NoDup_Permutation; [done .. |].
    intros w. split; revert w; by apply Forall_forall. }
  intros T tbl F tbl'. repeat apply conj.
  - by vm_compute.
  - by vm_compute.
  - apply (bool_decide_unpack _). by vm_compute.
  - apply Hperm; apply (bool_decide_unpack _); by vm_compute.
  - by vm_compute.
  - by vm_compute.
  - apply (bool_decide_unpack _). by vm_compute.
  - apply Hperm; apply (bool_decide_unpack _); by vm_compute.
Qed.

(** C6.  In every run, the renderer is called only on a text with at least
    one token.  And when the text [t] of the uploaded file, once filtered, has
    no token, the run ends normally after the two stopword widgets: no call of
    the renderer, no figure and no table, and no exception on the page. *)
Theorem no_token_no_render (L : libraries) (w : widgets) :
  Forall (fun e => match e with
                   | call_generate _ _ t => split t ≠ []
                   | _ => True
                   end) (word_py L w).1
  ∧ forall file t,
      uploaded w = Some file ->
      extract L file = ([], Done t) ->
      split (final_text L w t) = [] ->
      word_py L w = (preamble ++ details file :: stopword_widgets t, Done tt)
      ∧ page L w = preamble ++ details file :: stopword_widgets t
      ∧ Forall (fun e => is_output e = false) (page L w).
Proof.
  split.
  - destruct (uploaded w) as [file |] eqn:Hu.
    + rewrite (word_py_uploaded _ _ _ Hu). cbn [fst].
      apply Forall_app; split; [repeat constructor |].
      destruct (extract_cases L file) as [[t Ht] | [[e He] | He]].
      * rewrite (process_extracted _ _ _ _ Ht).
        destruct (decide _) as [E | E]; cbn [fst]; [repeat constructor |].
        constructor; [done |]. apply Forall_app; split; [repeat constructor |].
        eapply Forall_impl; [apply render_events |].
        intros [] Hev; try done. cbn in Hev. subst t0.
        intros Hs. apply E. unfold final_text, filtered_text in *.
        by apply filter_stopwords_no_token.
      * unfold process. rewrite He. cbn. repeat constructor.
      * unfold process. rewrite He. cbn. repeat constructor.
    + unfold word_py. rewrite Hu. cbn. repeat constructor.
  - intros file t Hu Ht Hs.
    assert (E : final_text L w t = []).
    { unfold final_text, filtered_text in *. by apply filter_stopwords_no_token. }
    assert (Hrun : word_py L w
                   = (preamble ++ details file :: stopword_widgets t, Done tt)).
    { rewrite (word_py_uploaded _ _ _ Hu), (process_extracted _ _ _ _ Ht).
      by rewrite decide_True. }
    assert (Hpage : page L w = preamble ++ details file :: stopword_widgets t).
    { unfold page. by rewrite Hrun. }
    split; [done |]. split; [done |]. rewrite Hpage. repeat constructor.
Qed.

Lemma no_token_no_render_witness :
  page sample_libraries (first_run empty_file)
  = preamble ++ details empty_file :: stopword_widgets [].
Proof.
  apply (proj2 (no_token_no_render sample_libraries (first_run empty_file))
           empty_file []); reflexivity.
Defined.

(** C7.  A file whose declared type is none of the three supported ones gets
    the error message and the run stops there: the page ends with the
    message, nothing is extracted, counted or drawn, and no exception is
    raised. *)
Theorem unsupported_type_stops (L : libraries) (w : widgets) (file : uploaded_file) :
  uploaded w = Some file ->
  type_ file ≠ text_plain ->
  type_ file ≠ application_pdf ->
  type_ file ≠ application_docx ->
  word_py L w = (preamble ++ [details file; st_error unsupported_message], Stopped)
  ∧ page L w = preamble ++ [details file; st_error unsupported_message].
Proof.
  intros Hu H1 H2 H3.
  assert (He : extract L file = ([st_error unsupported_message], Stopped)).
  { unfold extract. by rewrite !decide_False. }
  assert (Hrun : word_py L w
                 = (preamble ++ [details file; st_error unsupported_message],
                    Stopped)).
  { rewrite (word_py_uploaded _ _ _ Hu). unfold process. by rewrite He. }
  split; [done |]. unfold page. by rewrite Hrun.
Qed.

Lemma unsupported_type_stops_witness :
  page sample_libraries (first_run zip_file)
  = preamble ++ [details zip_file; st_error unsupported_message].
Proof.
  apply (proj2 (unsupported_type_stops sample_libraries (first_run zip_file) zip_file
                  eq_refl ltac:(by vm_compute) ltac:(by vm_compute)
                  ltac:(by vm_compute))).
Defined.

(** C8.  For a plain-text file the bytes are decoded as UTF-8: when they are
    the UTF-8 form of a text [t], [t] is the extracted text.  When they are
    the UTF-8 form of no text, the run ends with [UnicodeDecodeError] right
    after the file details: the page still has the uploader, shows the
    exception, and has no further element. *)
Theorem plain_text_is_decoded (L : libraries) (w : widgets) (file : uploaded_file) :
  uploaded w = Some file ->
  type_ file = text_plain ->
  (forall t, utf8_encode t = Some (getvalue file) -> extract L file = ([], Done t))
  ∧ ((~ exists t, utf8_encode t = Some (getvalue file)) ->
     extract L file = ([], Raised UnicodeDecodeError)
     ∧ word_py L w = (preamble ++ [details file], Raised UnicodeDecodeError)
     ∧ page L w = preamble ++ [details file; st_exception UnicodeDecodeError]).
Proof.
  intros Hu Hty.
  assert (He : extract L file = read_txt L file).
  { unfold extract. by rewrite decide_True. }
  unfold read_txt in He. split.
  - intros t Ht%utf8_decode_encode. by rewrite Ht in He.
  - intros Hinv%utf8_decode_None. rewrite Hinv in He.
    assert (Hrun : word_py L w
                   = (preamble ++ [details file], Raised UnicodeDecodeError)).
    { rewrite (word_py_uploaded _ _ _ Hu). unfold process. by rewrite He. }
    split; [done |]. split; [done |]. unfold page. by rewrite Hrun.
Qed.

Lemma plain_text_is_decoded_witness :
  page sample_libraries (first_run broken_file)
  = preamble ++ [details broken_file; st_exception UnicodeDecodeError].
Proof.
  apply (proj2 (plain_text_is_decoded sample_libraries (first_run broken_file)
                  broken_file eq_refl eq_refl)).
  apply utf8_decode_None. reflexivity.
Defined.


(** C10.  Whatever the additional stopwords, no token of what
    [filter_stopwords] returns lowercases to a word of [STOPWORDS]: the
    function filters with [STOPWORDS] joined to the set it is given. *)
Theorem filter_stopwords_removes_standard_words (STOPWORDS : gset text)
    (lower : text -> text) (T : text) (A : gset text) :
  Forall (fun word => lower word ∉ STOPWORDS)
    (split (filter_stopwords STOPWORDS lower T A))
  ∧ filter_stopwords STOPWORDS lower T A
    = join (filter (fun word => lower word ∉ STOPWORDS ∪ A) (split T))
  ∧ filter_stopwords STOPWORDS lower T A
    = filter_stopwords STOPWORDS lower T (STOPWORDS ∪ A).
Proof.
  split; [| split].
  - rewrite split_filter_stopwords. apply Forall_forall.
    intros w [Hw _]%list_elem_of_filter. set_solver.
  - reflexivity.
  - unfold filter_stopwords. f_equal. apply list_filter_iff.
    intros w. rewrite !elem_of_union. tauto.
Qed.

(** * Further properties of the code *)

(** ** Filtering and counting *)

Lemma count_filter (P : text -> Prop) `{!forall x, Decision (P x)} (w : text)
    (l : list text) :
  count w (filter P l) = if decide (P w) then count w l else 0%nat.
Proof.
  induction l as [| x l IH]; [by destruct (decide (P w)) |].
  rewrite filter_cons. destruct (decide (P x)) as [Hx | Hx].
  - rewrite !count_cons, IH. destruct (decide (P w)); [done |].
    rewrite decide_False; [done | by intros ->].
  - rewrite IH, count_cons. destruct (decide (P w)); [| done].
    rewrite decide_False; [done | by intros ->].
Qed.

(** X1.  The text that [filter_stopwords] returns (line 32) splits again
    (line 116) into exactly the tokens that were kept: they are the tokens of
    the input that pass the test, in their order, none is glued to another or
    cut, and the returned text is these tokens joined (so it has no leading,
    trailing or double space). *)
Theorem filtered_text_tokens (STOPWORDS : gset text) (lower : text -> text)
    (T : text) (A : gset text) :
  let out := filter_stopwords STOPWORDS lower T A in
  split out = filter (fun word => lower word ∉ STOPWORDS ∪ A) (split T)
  ∧ sublist (split out) (split T)
  ∧ (length (split out) <= length (split T))%nat
  ∧ join (split out) = out.
Proof.
  intros out. unfold out. rewrite split_filter_stopwords.
  split; [done |]. split; [apply sublist_filter |].
  split; [apply length_filter | done].
Qed.

(** X2.  Filtering removes whole words and leaves the other counts alone: in
    the filtered text a word occurs as often as in the input, or not at all
    when its lowercased form is a stopword; so every row of the second table
    (line 117) is, word and count, a row of the first one (line 72). *)
Theorem counts_after_filtering (STOPWORDS : gset text) (lower : text -> text)
    (T : text) (A : gset text) :
  let out := filter_stopwords STOPWORDS lower T A in
  (forall w, count w (split out)
             = if decide (lower w ∈ STOPWORDS ∪ A) then 0%nat
               else count w (split T))
  ∧ Forall (fun r => r ∈ word_count (split T)) (word_count (split out)).
Proof.
  intros out. unfold out. rewrite split_filter_stopwords.
  assert (Hc : forall w,
             count w (filter (fun word => lower word ∉ STOPWORDS ∪ A) (split T))
             = if decide (lower w ∈ STOPWORDS ∪ A) then 0%nat
               else count w (split T)).
  { intros w. rewrite count_filter.
    destruct (decide (lower w ∈ STOPWORDS ∪ A)) as [Hin | Hout].
    - by rewrite decide_False by (intros Hn; by apply Hn).
    - by rewrite decide_True. }
  split; [done |]. apply Forall_forall. intros r [Hw Hr]%word_count_elem.
  apply word_count_elem. apply list_elem_of_filter in Hw as [Hp Hw].
  split; [done |]. rewrite Hr, Hc. by rewrite decide_False.
Qed.

(** X3.  Filtering with one set and then with another is filtering once with
    their union, in either order. *)
Theorem filter_stopwords_compose (STOPWORDS : gset text) (lower : text -> text)
    (T : text) (A B : gset text) :
  filter_stopwords STOPWORDS lower (filter_stopwords STOPWORDS lower T A) B
  = filter_stopwords STOPWORDS lower T (A ∪ B)
  ∧ filter_stopwords STOPWORDS lower (filter_stopwords STOPWORDS lower T A) B
    = filter_stopwords STOPWORDS lower (filter_stopwords STOPWORDS lower T B) A.
Proof.
  assert (H : forall X Y,
             filter_stopwords STOPWORDS lower (filter_stopwords STOPWORDS lower T X) Y
             = filter_stopwords STOPWORDS lower T (X ∪ Y)).
  { intros X Y. unfold filter_stopwords at 1. rewrite split_filter_stopwords.
    rewrite list_filter_filter. unfold filter_stopwords. f_equal.
    apply list_filter_iff. intros w. rewrite !elem_of_union. tauto. }
  split; [apply H |]. rewrite !H. unfold filter_stopwords. f_equal.
  apply list_filter_iff. intros w. rewrite !elem_of_union. tauto.
Qed.

(** X4.  The test of line 31 compares the lowercased token with the set, so a
    stopword that is not its own lowercased form is never matched: adding it
    changes nothing, provided lowercasing twice is lowercasing once. *)
Theorem stopword_not_lowercase_is_ignored (STOPWORDS : gset text)
    (lower : text -> text) (T : text) (A : gset text) (s : text) :
  (forall x, lower (lower x) = lower x) ->
  lower s ≠ s ->
  filter_stopwords STOPWORDS lower T (A ∪ {[ s ]})
  = filter_stopwords STOPWORDS lower T A.
Proof.
  intros Hidem Hs. unfold filter_stopwords. f_equal.
  apply list_filter_iff. intros w. rewrite !elem_of_union, elem_of_singleton.
  split; [tauto |]. intros Hn [H | [H | H]]; [tauto .. |].
  apply Hs. rewrite <- H. apply Hidem.
Qed.

Lemma lower_latin1_idempotent x : lower_latin1 (lower_latin1 x) = lower_latin1 x.
Proof.
  unfold lower_latin1. rewrite map_map. apply map_ext. intros c.
  unfold lower_char.
  destruct ((65 <=? c) && (c <=? 90) || (192 <=? c) && (c <=? 222) && negb (c =? 215))
    eqn:E; [| by rewrite E].
  assert (((65 <=? c + 32) && (c + 32 <=? 90)
           || (192 <=? c + 32) && (c + 32 <=? 222) && negb (c + 32 =? 215)) = false)
    as ->; [| done].
  apply orb_true_iff in E.
  rewrite !andb_true_iff, !N.leb_le in E.
  apply orb_false_iff. rewrite !andb_false_iff, !N.leb_gt. lia.
Qed.

Lemma stopword_not_lowercase_is_ignored_witness :
  filter_stopwords wordcloud_STOPWORDS lower_latin1 (txt "Cat sat cat")
    (∅ ∪ {[ txt "Cat" ]})
  = filter_stopwords wordcloud_STOPWORDS lower_latin1 (txt "Cat sat cat") ∅.
Proof.
  apply (stopword_not_lowercase_is_ignored wordcloud_STOPWORDS lower_latin1
           (txt "Cat sat cat") ∅ (txt "Cat") lower_latin1_idempotent).
  by vm_compute.
Defined.

(** ** Splitting *)

Lemma split_from_nonempty cur s : cur ≠ [] -> split_from cur s ≠ [].
Proof.
  revert cur. induction s as [| c r IH]; intros cur Hcur; simpl.
  - by destruct cur.
  - destruct (is_space c); [by destruct cur |].
    apply IH. by destruct cur.
Qed.

(** X5.  A text has no token exactly when each of its characters is
    whitespace; the empty text is the case without characters. *)
Theorem no_token_iff_whitespace (t : text) :
  split t = [] <-> Forall (fun c => is_space c = true) t.
Proof.
  unfold split. induction t as [| c r IH]; simpl.
  - split; [constructor | done].
  - destruct (is_space c) eqn:Hc; simpl.
    + rewrite IH. split; [by constructor |]. by inversion 1.
    + split.
      * intros H. by apply split_from_nonempty in H.
      * inversion 1; congruence.
Qed.

Lemma split_from_app_space cur a b :
  split_from cur (a ++ SPACE :: b) = split_from cur a ++ split b.
Proof.
  revert cur. induction a as [| c a IH]; intros cur; simpl.
  - reflexivity.
  - destruct (is_space c); [| apply IH].
    by rewrite IH, app_assoc.
Qed.

Lemma split_join_pieces (pieces : list text) :
  split (join pieces) = concat (split <$> pieces).
Proof.
  induction pieces as [| p r IH]; [done |].
  destruct r as [| q r'].
  - simpl. by rewrite app_nil_r.
  - change (join (p :: q :: r')) with (p ++ SPACE :: join (q :: r')).
    unfold split at 1. rewrite split_from_app_space, IH. reflexivity.
Qed.

(** X6.  [read_pdf] and [read_docx] pass on the exception of their library,
    and otherwise return a text whose tokens are the tokens of the pages (of
    the paragraphs), page after page: the space put between two pieces keeps
    the last word of one apart from the first word of the next, and a piece
    without text adds no token. *)
Theorem readers_keep_tokens (L : libraries) (file : uploaded_file) :
  match pdf_pages L (getvalue file) with
  | inl e => read_pdf L file = ([], Raised e)
  | inr pages =>
      read_pdf L file = ([], Done (join pages))
      ∧ split (join pages) = concat (split <$> pages)
  end
  ∧ match docx_paragraphs L (getvalue file) with
    | inl e => read_docx L file = ([], Raised e)
    | inr paragraphs =>
        read_docx L file = ([], Done (join paragraphs))
        ∧ split (join paragraphs) = concat (split <$> paragraphs)
    end.
Proof.
  unfold read_pdf, read_docx. split.
  - destruct (pdf_pages L (getvalue file)); [done |].
    split; [done | apply split_join_pieces].
  - destruct (docx_paragraphs L (getvalue file)); [done |].
    split; [done | apply split_join_pieces].
Qed.

(** ** Decoding *)

(** X7.  [read_txt] returns the text [t] exactly when the bytes of the file
    are the UTF-8 form of [t], and raises [UnicodeDecodeError] exactly when
    they are the UTF-8 form of no text. *)
Theorem read_txt_exact (L : libraries) (file : uploaded_file) :
  (forall t, read_txt L file = ([], Done t) <-> utf8_encode t = Some (getvalue file))
  ∧ (read_txt L file = ([], Raised UnicodeDecodeError)
     <-> ~ exists t, utf8_encode t = Some (getvalue file)).
Proof.
  unfold read_txt. split.
  - intros t. split.
    + destruct (utf8_decode (getvalue file)) as [t' |] eqn:Hd; [| done].
      intros [= ->]. by apply utf8_encode_decode.
    + intros Ht%utf8_decode_encode. by rewrite Ht.
  - rewrite <- utf8_decode_None.
    destruct (utf8_decode (getvalue file)); split; done.
Qed.

(** X8.  A byte-order mark is not removed: the bytes [EF BB BF] in front of
    [data] decode to U+FEFF in front of the text of [data]; U+FEFF is no
    whitespace, so it becomes the first character of the first token when the
    text starts with a token, and a token of its own otherwise. *)
Theorem byte_order_mark_is_kept (data : bytes) (t : text) :
  utf8_decode (Byte.xef :: Byte.xbb :: Byte.xbf :: data)
  = cons 65279 <$> utf8_decode data
  ∧ split (65279 :: t)
    = match t with
      | [] => [[65279]]
      | c :: _ =>
          if is_space c then [65279] :: split t
          else match split t with
               | w :: ws => (65279 :: w) :: ws
               | [] => []
               end
      end.
Proof.
  split; [reflexivity |].
  destruct t as [| c r]; [reflexivity |].
  unfold split. cbn [split_from]. change (is_space 65279) with false.
  cbv iota. destruct (is_space c) eqn:Hc.
  - reflexivity.
  - change ([] ++ [65279]) with [65279]. change ([] ++ [c]) with [c].
    change ([65279] ++ [c]) with (65279 :: [c]).
    by apply split_from_push.
Qed.

(** ** The words offered as stopwords *)

(** X9.  The options of the multiselect (lines 76-77) are at most 50 distinct
    tokens of the unfiltered text, in the order of [sorted]; none of them
    occurs less often than a token that is not offered; and when the text has
    at most 50 distinct tokens, every token is offered. *)
Theorem candidates_are_the_most_frequent (t : text) :
  (length (candidates t) <= 50)%nat
  ∧ NoDup (candidates t)
  ∧ Sorted text_le (candidates t)
  ∧ Forall (fun c => c ∈ split t) (candidates t)
  ∧ (forall c w, c ∈ candidates t -> w ∈ split t -> w ∉ candidates t ->
                 (count w (split t) <= count c (split t))%nat)
  ∧ ((length (remove_dups (split t)) <= 50)%nat ->
     forall w, w ∈ split t -> w ∈ candidates t).
Proof.
  unfold candidates. set (wc := word_count (split t)).
  assert (Hin : forall c, c ∈ sorted (Word <$> take 50 wc)
                          <-> exists r, r ∈ take 50 wc ∧ Word r = c).
  { intros c. rewrite sorted_perm, list_elem_of_fmap. naive_solver. }
  assert (Hsub : forall r, r ∈ take 50 wc -> r ∈ wc).
  { intros r. apply subseteq_take. }
  split; [| split; [| split; [| split; [| split]]]].
  - rewrite sorted_perm, length_fmap, length_take. lia.
  - rewrite sorted_perm, fmap_take.
    eapply sublist_NoDup; [apply word_count_NoDup | apply sublist_take].
  - apply Sorted_merge_sort, text_le_total.
  - apply Forall_forall. intros c (r & Hr & <-)%Hin.
    apply Hsub, word_count_elem in Hr. tauto.
  - intros c w (rc & Hrc & <-)%Hin Hw Hnot.
    assert (Hrw : Row w (count w (split t)) ∈ wc) by (by apply word_count_elem).
    rewrite <- (take_drop 50 wc) in Hrw. apply elem_of_app in Hrw as [Hrw | Hrw].
    { exfalso. apply Hnot, Hin. eauto. }
    pose proof (word_count_sorted (split t)) as Hs. fold wc in Hs.
    rewrite <- (take_drop 50 wc) in Hs.
    pose proof (StronglySorted_app_1_elem_of _ _ _ _ _ Hs Hrc Hrw) as Hle.
    apply Hsub, word_count_elem in Hrc as [_ Hc].
    unfold count_desc in Hle. simpl in Hle. lia.
  - intros Hlen w Hw. apply Hin. exists (Row w (count w (split t))).
    split; [| done]. rewrite take_ge; [by apply word_count_elem |].
    unfold wc. rewrite word_count_perm. unfold groupby_size.
    by rewrite length_fmap, sorted_perm.
Qed.

Lemma candidates_are_the_most_frequent_witness :
  txt "cat" ∈ candidates (txt "the cat the").
Proof.
  apply (proj2 (proj2 (proj2 (proj2 (proj2
           (candidates_are_the_most_frequent (txt "the cat the"))))))).
  - vm_compute. lia.
  - vm_compute. repeat first [apply list_elem_of_here | apply list_elem_of_further].
Defined.

(** ** Characters from the text to the CSV export *)

Lemma flush_chars (P : codepoint -> Prop) cur :
  Forall P cur -> Forall (Forall P) (flush cur).
Proof.
  intros Hcur. destruct cur as [| c cur]; [constructor |].
  apply Forall_cons; split; [done | constructor].
Qed.

Lemma split_from_chars (P : codepoint -> Prop) cur s :
  Forall P cur -> Forall P s -> Forall (Forall P) (split_from cur s).
Proof.
  intros Hcur Hs. revert cur Hcur.
  induction Hs as [| c r Hc _ IH]; intros cur Hcur; simpl.
  - by apply flush_chars.
  - destruct (is_space c).
    + apply Forall_app; split; [by apply flush_chars | apply IH; constructor].
    + apply IH, Forall_app; split; [done |].
      apply Forall_cons; split; [done | constructor].
Qed.

Lemma join_chars (P : codepoint -> Prop) (words : list text) :
  P SPACE -> Forall (Forall P) words -> Forall P (join words).
Proof.
  intros Hsp. induction 1 as [| w r Hw Hr IH]; [constructor |].
  destruct r as [| w' r']; [done |].
  change (join (w :: w' :: r')) with (w ++ SPACE :: join (w' :: r')).
  apply Forall_app; split; [done |]. by constructor.
Qed.

Lemma filter_stopwords_chars (P : codepoint -> Prop) STOPWORDS lower t A :
  P SPACE -> Forall P t -> Forall P (filter_stopwords STOPWORDS lower t A).
Proof.
  intros Hsp Ht. unfold filter_stopwords. apply join_chars; [done |].
  apply Forall_forall. intros w [_ Hw]%list_elem_of_filter. revert w Hw.
  apply Forall_forall, split_from_chars; [constructor | done].
Qed.

Lemma double_quotes_chars (P : codepoint -> Prop) w :
  P QUOTE -> Forall P w -> Forall P (double_quotes w).
Proof.
  intros Hq. induction 1 as [| c w Hc _ IH]; simpl; [constructor |].
  destruct (c =? QUOTE); repeat constructor; done.
Qed.

Lemma csv_field_chars (P : codepoint -> Prop) w :
  P QUOTE -> Forall P w -> Forall P (csv_field w).
Proof.
  intros Hq Hw. unfold csv_field. destruct (existsb special w); [| done].
  constructor; [done |]. apply Forall_app; split; [| by repeat constructor].
  by apply double_quotes_chars.
Qed.

Lemma digits_chars d : Forall (fun c => 48 <= c <= 57) (digits d).
Proof. induction d; simpl; constructor; (done || lia). Qed.

(** Every character of the CSV text is a character of a word of the frame,
    or one of the characters below 128 that the writer puts. *)
Lemma to_csv_chars (P : codepoint -> Prop) (df : list row) :
  (forall c, c < 128 -> P c) ->
  Forall (fun r => Forall P (Word r)) df ->
  Forall P (to_csv df).
Proof.
  intros Hascii Hdf. rewrite to_csv_lines.
  apply Forall_app; split.
  { eapply Forall_impl; [| intros c Hc; apply Hascii, Hc].
    apply (bool_decide_unpack _). by vm_compute. }
  apply Forall_app; split.
  { repeat constructor. by apply Hascii. }
  induction Hdf as [| r df Hr _ IH]; [constructor |].
  cbn [flat_map]. apply Forall_app; split; [| done].
  apply Forall_app; split; [apply csv_field_chars; [by apply Hascii | done] |].
  apply Forall_app; split; [repeat constructor; by apply Hascii |].
  apply Forall_app; split; [| repeat constructor; by apply Hascii].
  eapply Forall_impl; [apply digits_chars |]. intros c Hc. apply Hascii.
  cbv beta in Hc. lia.
Qed.

Lemma word_count_chars (P : codepoint -> Prop) (t : text) :
  Forall P t -> Forall (fun r => Forall P (Word r)) (word_count (split t)).
Proof.
  intros Ht. apply Forall_forall. intros r [Hr _]%word_count_elem.
  revert Hr. generalize (Word r). apply Forall_forall.
  apply split_from_chars; [constructor | done].
Qed.

Lemma utf8_encode_is_Some (s : text) :
  Forall (fun c => is_Some (utf8_encode_char c)) s <-> is_Some (utf8_encode s).
Proof.
  induction s as [| c s IH]; simpl.
  - split; [by eexists | constructor].
  - rewrite Forall_cons, IH.
    destruct (utf8_encode_char c) as [b |], (utf8_encode s) as [bs |].
    + split; intros _; [by eexists | split; by eexists].
    + split; [intros [_ [? ?]]; done | intros [? ?]; done].
    + split; [intros [[? ?] _]; done | intros [? ?]; done].
    + split; [intros [[? ?] _]; done | intros [? ?]; done].
Qed.

(** X10.  The download link of the table cannot fail for a text that was
    decoded from UTF-8: whatever was filtered, the CSV text of the table is
    made of characters of the text and of characters below 128, so
    [csv.encode()] (line 42) succeeds and [get_table_download_link] returns a
    link. *)
Theorem table_link_of_decoded_text (L : libraries) (data : bytes) (t : text)
    (A : gset text) (filename file_label : text) :
  utf8_decode data = Some t ->
  exists csv_bytes link,
    utf8_encode
      (to_csv (word_count (split (filter_stopwords (STOPWORDS L) (lower L) t A))))
    = Some csv_bytes
    ∧ get_table_download_link L
        (word_count (split (filter_stopwords (STOPWORDS L) (lower L) t A)))
        filename file_label
      = ([], Done link).
Proof.
  intros Hd%utf8_encode_decode.
  assert (Ht : Forall (fun c => is_Some (utf8_encode_char c)) t).
  { apply utf8_encode_is_Some. by eexists. }
  assert (Hascii : forall c, c < 128 -> is_Some (utf8_encode_char c)).
  { intros c Hc. unfold utf8_encode_char.
    destruct (N.ltb_spec c 128); [by eexists | lia]. }
  assert (Hcsv : is_Some (utf8_encode (to_csv (word_count (split
                   (filter_stopwords (STOPWORDS L) (lower L) t A)))))).
  { apply utf8_encode_is_Some, to_csv_chars; [done |].
    apply word_count_chars, filter_stopwords_chars; [by apply Hascii | done]. }
  destruct Hcsv as [csv_bytes Hcsv]. unfold get_table_download_link.
  rewrite Hcsv. eauto.
Qed.

Lemma table_link_of_decoded_text_witness :
  exists csv_bytes link,
    utf8_encode
      (to_csv (word_count (split
         (filter_stopwords (STOPWORDS sample_libraries) (lower sample_libraries)
            (txt "the cat") ∅))))
    = Some csv_bytes
    ∧ get_table_download_link sample_libraries
        (word_count (split
           (filter_stopwords (STOPWORDS sample_libraries) (lower sample_libraries)
              (txt "the cat") ∅)))
        (txt "word_count.csv") (txt "Click Here to Download")
      = ([], Done link).
Proof.
  apply (table_link_of_decoded_text sample_libraries the_cat_bytes (txt "the cat")).
  reflexivity.
Defined.

Lemma filter_none {A} (P : A -> Prop) `{!forall x, Decision (P x)} (l : list A) :
  Forall (fun x => ~ P x) l -> filter P l = [].
Proof.
  induction 1 as [| x l Hx _ IH]; [done |]. by rewrite filter_cons_False.
Qed.

Lemma token_no_line_feed w : token w -> Forall (fun c => c ≠ LF) w.
Proof.
  intros [_ Hw]. eapply Forall_impl; [apply Hw |].
  intros c Hc ->. discriminate Hc.
Qed.

(** X11.  The CSV text of a frequency table has one line feed for the header
    and one per row, and as many rows as the text has distinct tokens: a token
    holds no whitespace, so no word brings a line break into the file and
    every row is one line of it. *)
Theorem csv_one_line_per_word (T : text) :
  let df := word_count (split T) in
  length (filter (fun c => c = LF) (to_csv df)) = S (length df)
  ∧ length df = length (remove_dups (split T)).
Proof.
  intros df. split.
  - assert (Hdf : Forall (fun r => Forall (fun c => c ≠ LF) (Word r)) df).
    { apply Forall_forall. intros r [Hr _]%word_count_elem.
      apply token_no_line_feed. revert Hr. generalize (Word r).
      apply Forall_forall, split_tokens. }
    rewrite to_csv_lines, !filter_app, !length_app.
    rewrite (filter_none _ (txt "Word,Count"))
      by (apply (bool_decide_unpack _); by vm_compute).
    change (length (filter (fun c => c = LF) [LF])) with 1%nat.
    cbn [length Nat.add]. f_equal.
    induction Hdf as [| r rows Hr _ IH]; [done |].
    cbn [flat_map length]. rewrite !filter_app, !length_app, IH.
    rewrite (filter_none _ (csv_field (Word r)))
      by (apply csv_field_chars; done).
    rewrite (filter_none _ (str_nat (Count r))).
    + reflexivity.
    + eapply Forall_impl; [apply digits_chars |].
      intros c Hc ->. unfold LF in Hc. lia.
  - unfold df. rewrite word_count_perm. unfold groupby_size.
    by rewrite length_fmap, sorted_perm.
Qed.

(** ** What a run shows *)

Lemma page_events L w :
  page L w
  = (word_py L w).1
    ++ match (word_py L w).2 with
       | Raised e => [st_exception e]
       | _ => []
       end.
Proof.
  unfold page. destruct (word_py L w) as [evs [[] | | e]]; simpl;
    by rewrite ?app_nil_r.
Qed.

(** X12.  When the library that reads a PDF or a Word document raises, the
    run ends there with that exception: the page has the preamble, the file
    details and the exception, and nothing is counted, filtered or drawn. *)
Theorem reader_failure_ends_run (L : libraries) (w : widgets)
    (file : uploaded_file) (e : exn) :
  uploaded w = Some file ->
  (type_ file = application_pdf ∧ pdf_pages L (getvalue file) = inl e)
  ∨ (type_ file = application_docx ∧ docx_paragraphs L (getvalue file) = inl e) ->
  word_py L w = (preamble ++ [details file], Raised e)
  ∧ page L w = preamble ++ [details file; st_exception e].
Proof.
  intros Hu Hfail.
  assert (He : extract L file = ([], Raised e)).
  { unfold extract, read_pdf, read_docx.
    destruct Hfail as [[Hty Hr] | [Hty Hr]]; rewrite Hty, Hr.
    - rewrite decide_False by (by vm_compute). by rewrite decide_True.
    - rewrite !decide_False by (by vm_compute). by rewrite decide_True. }
  assert (Hrun : word_py L w = (preamble ++ [details file], Raised e)).
  { rewrite (word_py_uploaded _ _ _ Hu). unfold process. by rewrite He. }
  split; [done |]. rewrite page_events, Hrun. reflexivity.
Qed.

Lemma reader_failure_ends_run_witness :
  page unreadable_pdf_libraries (first_run pdf_file)
  = preamble ++ [details pdf_file; st_exception (LibraryError "PdfReadError")].
Proof.
  apply (proj2 (reader_failure_ends_run unreadable_pdf_libraries
                  (first_run pdf_file) pdf_file (LibraryError "PdfReadError")
                  eq_refl (or_introl (conj eq_refl eq_refl)))).
Defined.

(** What [render] shows: a figure that the renderer returned for [t], and
    the table of [t] after it. *)
Lemma render_shows L w t :
  Forall (fun e => match e with
                   | st_pyplot fig => generate L (width w) (height w) t = inr fig
                   | st_write_table df =>
                       df = word_count (split t)
                       ∧ exists fig, generate L (width w) (height w) t = inr fig
                   | _ => True
                   end) (render L w t).1.
Proof.
  unfold render, get_table_download_link.
  destruct (generate _ _ _ _) as [e | fig] eqn:Hg; simpl; [repeat constructor |].
  destruct (save_clicked w); simpl.
  - destruct (savefig _ _ _ _) as [e | buf]; simpl; [repeat constructor; done |].
    destruct (download_clicked w); simpl; [| repeat constructor; eauto].
    destruct (utf8_encode _); simpl; repeat constructor; eauto.
  - destruct (download_clicked w); simpl; [| repeat constructor; eauto].
    destruct (utf8_encode _); simpl; repeat constructor; eauto.
Qed.

(** X13.  A table on the page is always the frequency table of the filtered
    text of the uploaded file, shown after the renderer returned a figure for
    that text: when the renderer raises there is no table.  No row of a shown
    table is a word whose lowercased form is in [STOPWORDS]. *)
Theorem shown_table (L : libraries) (w : widgets) (df : list row) :
  st_write_table df ∈ page L w ->
  exists file t fig,
    uploaded w = Some file
    ∧ extract L file = ([], Done t)
    ∧ final_text L w t ≠ []
    ∧ generate L (width w) (height w) (final_text L w t) = inr fig
    ∧ df = word_count (split (final_text L w t))
    ∧ Forall (fun r => lower L (Word r) ∉ STOPWORDS L) df.
Proof.
  rewrite page_events. intros Hin. apply elem_of_app in Hin as [Hin | Hin].
  2: { destruct ((word_py L w).2); [by apply elem_of_nil in Hin ..|].
       apply list_elem_of_singleton in Hin. discriminate Hin. }
  destruct (uploaded w) as [file |] eqn:Hu.
  2: { unfold word_py in Hin. rewrite Hu in Hin. cbn in Hin.
       repeat (apply elem_of_cons in Hin as [Hin | Hin]; [discriminate Hin |]).
       by apply elem_of_nil in Hin. }
  rewrite (word_py_uploaded _ _ _ Hu) in Hin. cbn [fst] in Hin.
  apply elem_of_app in Hin as [Hin | Hin].
  { unfold preamble in Hin.
    repeat (apply elem_of_cons in Hin as [Hin | Hin]; [discriminate Hin |]).
    by apply elem_of_nil in Hin. }
  destruct (extract_cases L file) as [[t Ht] | [[e He] | He]].
  - rewrite (process_extracted _ _ _ _ Ht) in Hin.
    destruct (decide (final_text L w t = [])) as [E | E]; cbn [fst] in Hin.
    { unfold stopword_widgets in Hin.
      repeat (apply elem_of_cons in Hin as [Hin | Hin]; [discriminate Hin |]).
      by apply elem_of_nil in Hin. }
    apply elem_of_cons in Hin as [Hin | Hin]; [discriminate Hin |].
    apply elem_of_app in Hin as [Hin | Hin].
    { unfold stopword_widgets in Hin.
      repeat (apply elem_of_cons in Hin as [Hin | Hin]; [discriminate Hin |]).
      by apply elem_of_nil in Hin. }
    pose proof (render_shows L w (final_text L w t)) as Hr.
    rewrite Forall_forall in Hr. specialize (Hr _ Hin) as [-> [fig Hfig]].
    exists file, t, fig. repeat (split; [done |]).
    apply Forall_forall. intros r [Hr _]%word_count_elem.
    unfold final_text, filtered_text in Hr. rewrite split_filter_stopwords in Hr.
    apply list_elem_of_filter in Hr as [Hr _].
    intros Hs. apply Hr. apply elem_of_union. by left.
  - unfold process in Hin. rewrite He in Hin. cbn in Hin.
    repeat (apply elem_of_cons in Hin as [Hin | Hin]; [discriminate Hin |]).
    by apply elem_of_nil in Hin.
  - unfold process in Hin. rewrite He in Hin. cbn in Hin.
    repeat (apply elem_of_cons in Hin as [Hin | Hin]; [discriminate Hin |]).
    by apply elem_of_nil in Hin.
Qed.

Lemma shown_table_witness :
  exists file t fig,
    uploaded (first_run the_cat_file) = Some file
    ∧ extract sample_libraries file = ([], Done t)
    ∧ final_text sample_libraries (first_run the_cat_file) t ≠ []
    ∧ generate sample_libraries (width (first_run the_cat_file))
        (height (first_run the_cat_file))
        (final_text sample_libraries (first_run the_cat_file) t) = inr fig
    ∧ [Row (txt "cat") 1]
      = word_count (split (final_text sample_libraries (first_run the_cat_file) t))
    ∧ Forall (fun r => lower sample_libraries (Word r) ∉ STOPWORDS sample_libraries)
        [Row (txt "cat") 1].
Proof.
  apply (shown_table sample_libraries (first_run the_cat_file) [Row (txt "cat") 1]).
  vm_compute. repeat first [apply list_elem_of_here | apply list_elem_of_further].
Defined.
